(** * Label-noise injection of [data/utils.py]: a shallow embedding

    The development follows the three layers of the noise core of
    [data/utils.py]:

    - the transition-matrix builders that are the first half of
      [noisify_pairflip] and [noisify_multiclass_symmetric];
    - the sampler [multiclass_noisify];
    - the dispatcher [noisify].

    Modelling choices.

    - Python floats are idealised as exact rationals ([Q]); every arithmetic
      operation of the source ([1. - n], [n / (nb_classes - 1)], the scalar
      product, the row sums, the mean) is the corresponding operation of [Q].
      Rounding of binary64 is therefore not represented there; statements
      about sums are made within the tolerance 1e-6, and the symmetric
      builder, whose quotient rounds, is given a second time over binary64
      (module [Binary64]).
    - A two-dimensional float array is a list of rows; its shape is read off
      the list ([shape0], [shape1]).
    - A label array is one- or two-dimensional ([labels]); the dimension
      matters because [y[idx]] is a scalar in the first case and a row in
      the second.
    - Exceptions are values of [exn]; a computation that may raise returns a
      [result].  Functions of the source that also have observable steps
      (allocating a matrix, entering the sampler, drawing from the generator,
      printing) run in the writer monad [M], whose log records those steps
      in order.
    - numpy's Mersenne Twister is not part of the repository: the generator
      is a parameter ([Generator]) made of a state, a seeding function and a
      categorical draw. *)

From Stdlib Require Import String.
From Stdlib Require Import List ZArith QArith Qabs Bool Lia Lqa.
Import ListNotations.

Open Scope Z_scope.

(** ** Exceptions and results *)

Inductive exn : Type :=
| AssertionError
| ValueError (msg : string)
| IndexError
| TypeError
| ZeroDivisionError.

Inductive result (A : Type) : Type :=
| Ok (a : A)
| Raise (e : exn).

Arguments Ok {A} a.
Arguments Raise {A} e.

Definition rbind {A B : Type} (r : result A) (k : A -> result B) : result B :=
  match r with
  | Ok a => k a
  | Raise e => Raise e
  end.

Notation "x <~ r ;; k" := (rbind r (fun x => k))
  (at level 61, r at next level, right associativity).

Definition is_ok {A : Type} (r : result A) : bool :=
  match r with Ok _ => true | Raise _ => false end.

(** ** Observable steps and the writer monad *)

Inductive event : Type :=
| EvAlloc                (* [np.eye] or [np.ones] returned a fresh matrix *)
| EvSampler              (* [multiclass_noisify] was entered *)
| EvDraw                 (* one call of [flipper.multinomial] *)
| EvPrint (rate : Q).    (* [print('Actual noise %.2f' % actual_noise)] *)

Definition M (A : Type) : Type := (list event * result A)%type.

Definition ret {A : Type} (a : A) : M A := ([], Ok a).

Definition raise {A : Type} (e : exn) : M A := ([], Raise e).

Definition lift {A : Type} (r : result A) : M A := ([], r).

Definition tell (e : event) : M unit := ([e], Ok tt).

Definition bind {A B : Type} (m : M A) (k : A -> M B) : M B :=
  match m with
  | (l, Ok a) => let (l', r) := k a in (l ++ l', r)
  | (l, Raise e) => (l, Raise e)
  end.

Notation "x <- m ;; k" := (bind m (fun x => k))
  (at level 61, m at next level, right associativity).

Notation "m ;;; k" := (bind m (fun _ => k))
  (at level 61, right associativity).

Definition log_of {A : Type} (m : M A) : list event := fst m.
Definition outcome {A : Type} (m : M A) : result A := snd m.

(** ** Float arrays *)

Definition matrix : Type := list (list Q).

Definition shape0 (m : matrix) : nat := length m.

Definition shape1 (m : matrix) : nat :=
  match m with
  | [] => 0%nat
  | r :: _ => length r
  end.

(** [matrix[i][j]] for in-range natural indices (0 outside). *)
Definition entry (m : matrix) (i j : nat) : Q := nth j (nth i m []) 0%Q.

(** [n > 0.0], [x >= 0.0] and friends on floats. *)
Definition Qltb (x y : Q) : bool := negb (Qle_bool y x).

(** numpy index normalisation along an axis of size [dim]: a negative index
    counts from the end, anything outside [-dim, dim) is an [IndexError]. *)
Definition norm_index (dim : nat) (i : Z) : result nat :=
  if (0 <=? i) && (i <? Z.of_nat dim) then Ok (Z.to_nat i)
  else if (i <? 0) && (- Z.of_nat dim <=? i) then Ok (Z.to_nat (i + Z.of_nat dim))
  else Raise IndexError.

Fixpoint update {A : Type} (k : nat) (v : A) (l : list A) : list A :=
  match l, k with
  | [], _ => []
  | _ :: t, O => v :: t
  | h :: t, S k' => h :: update k' v t
  end.

(** [matrix[i, j] = v] *)
Definition setitem2 (m : matrix) (i j : Z) (v : Q) : result matrix :=
  i' <~ norm_index (shape0 m) i ;;
  j' <~ norm_index (shape1 m) j ;;
  Ok (update i' (update j' v (nth i' m [])) m).

(** [range(lo, hi)] *)
Definition py_range (lo hi : Z) : list Z :=
  map (fun k => lo + Z.of_nat k) (seq 0 (Z.to_nat (hi - lo))).

(** A [for] loop over a list whose body may raise. *)
Fixpoint for_each {A S : Type} (xs : list A) (s : S) (body : S -> A -> result S)
  : result S :=
  match xs with
  | [] => Ok s
  | x :: xs' => s' <~ body s x ;; for_each xs' s' body
  end.

Definition negative_dimensions : exn :=
  ValueError "negative dimensions are not allowed".

(** The [c] by [c] identity and the [c] by [c] matrix of ones. *)
Definition eye_rows (c : nat) : matrix :=
  map (fun i => map (fun j => if Nat.eqb i j then 1%Q else 0%Q) (seq 0 c)) (seq 0 c).

Definition ones_rows (c : nat) : matrix := repeat (repeat 1%Q c) c.

(** [np.eye(n)] *)
Definition np_eye (n : Z) : M matrix :=
  if n <? 0 then raise negative_dimensions
  else tell EvAlloc ;;; ret (eye_rows (Z.to_nat n)).

(** [np.ones((n, n))] *)
Definition np_ones (n : Z) : M matrix :=
  if n <? 0 then raise negative_dimensions
  else tell EvAlloc ;;; ret (ones_rows (Z.to_nat n)).

(** [c * matrix] *)
Definition scale (c : Q) (m : matrix) : matrix :=
  map (map (fun x => (c * x)%Q)) m.

(** [n / k] for a float [n] and an int [k] *)
Definition float_div_int (n : Q) (k : Z) : result Q :=
  if k =? 0 then Raise ZeroDivisionError else Ok (n / inject_Z k)%Q.

(** ** The transition-matrix builders *)

(** Lines 133-136 of [noisify_pairflip]: the body of [if n > 0.0] up to the
    call of the sampler. *)
Definition pairflip_fill (matrix0 : matrix) (n : Q) (nb_classes : Z)
  : result matrix :=
  m <~ setitem2 matrix0 0 0 (1 - n)%Q ;;
  m <~ setitem2 m 0 1 n ;;
  m <~ for_each (py_range 1 (nb_classes - 1)) m
        (fun m i =>
           m <~ setitem2 m i i (1 - n)%Q ;;
           setitem2 m i (i + 1) n) ;;
  m <~ setitem2 m (nb_classes - 1) (nb_classes - 1) (1 - n)%Q ;;
  setitem2 m (nb_classes - 1) 0 n.

(** Lines 159-162 of [noisify_multiclass_symmetric]. *)
Definition symmetric_fill (matrix0 : matrix) (n : Q) (nb_classes : Z)
  : result matrix :=
  m <~ setitem2 matrix0 0 0 (1 - n)%Q ;;
  m <~ for_each (py_range 1 (nb_classes - 1)) m
        (fun m i => setitem2 m i i (1 - n)%Q) ;;
  setitem2 m (nb_classes - 1) (nb_classes - 1) (1 - n)%Q.

(** The value of the local [matrix] of [noisify_pairflip] once the builder
    part has run: [np.eye] and, under [n > 0.0], the fill. *)
Definition pairflip_matrix (noise : Q) (nb_classes : Z) : M matrix :=
  matrix0 <- np_eye nb_classes ;;
  if Qltb 0 noise then lift (pairflip_fill matrix0 noise nb_classes)
  else ret matrix0.

(** Likewise for [noisify_multiclass_symmetric]: [np.ones], the scaling by
    [n / (nb_classes - 1)] and, under [n > 0.0], the diagonal. *)
Definition symmetric_matrix (noise : Q) (nb_classes : Z) : M matrix :=
  matrix0 <- np_ones nb_classes ;;
  c <- lift (float_div_int noise (nb_classes - 1)) ;;
  let matrix1 := scale c matrix0 in
  if Qltb 0 noise then lift (symmetric_fill matrix1 noise nb_classes)
  else ret matrix1.

(** ** Label arrays *)

(** A label array of shape [(m,)] or [(m, k)]. *)
Inductive labels : Type :=
| Arr1 (xs : list Z)
| Arr2 (rows : list (list Z)).

(** All the entries, in C order. *)
Definition flat (y : labels) : list Z :=
  match y with
  | Arr1 xs => xs
  | Arr2 rows => concat rows
  end.

(** [y.shape[0]] *)
Definition labels_shape0 (y : labels) : nat :=
  match y with
  | Arr1 xs => length xs
  | Arr2 rows => length rows
  end.

Definition zero_size_max : exn :=
  ValueError "zero-size array to reduction operation maximum which has no identity".

(** [np.max(y)] *)
Definition np_max (y : labels) : result Z :=
  match flat y with
  | [] => Raise zero_size_max
  | x :: xs => Ok (fold_left Z.max xs x)
  end.

(** [y[idx]] for [idx] in [range(y.shape[0])]: a scalar of a one-dimensional
    array, a row of a two-dimensional one. *)
Inductive label_item : Type :=
| LScalar (i : Z)
| LRow (r : list Z).

Definition labels_getitem (y : labels) (idx : nat) : label_item :=
  match y with
  | Arr1 xs => LScalar (nth idx xs 0)
  | Arr2 rows => LRow (nth idx rows [])
  end.

(** The value of [matrix[i, :]]: one row when [i] is a scalar, one row per
    entry of [i] when [i] is an array. *)
Inductive float_array : Type :=
| F1 (r : list Q)
| F2 (rows : list (list Q)).

Definition matrix_rows (m : matrix) (i : label_item) : result float_array :=
  match i with
  | LScalar i =>
      i' <~ norm_index (shape0 m) i ;; Ok (F1 (nth i' m []))
  | LRow r =>
      rows <~ for_each r []
                (fun acc i => i' <~ norm_index (shape0 m) i ;;
                              Ok (acc ++ [nth i' m []])) ;;
      Ok (F2 rows)
  end.

(** The value of [a[0]]: a float when [a] is one-dimensional, a row when it
    is two-dimensional. *)
Inductive float_item : Type :=
| FScalar (x : Q)
| FRow (r : list Q).

Definition first_item (a : float_array) : result float_item :=
  match a with
  | F1 [] | F2 [] => Raise IndexError
  | F1 (x :: _) => Ok (FScalar x)
  | F2 (r :: _) => Ok (FRow r)
  end.

(** [np.where(flipped == 1)[0]] *)
Definition where_eq_1 (flipped : list Z) : list Z :=
  map (fun p => Z.of_nat (fst p))
      (filter (fun p => snd p =? 1) (combine (seq 0 (length flipped)) flipped)).

Definition cannot_assign : exn :=
  ValueError "could not broadcast input array".

(** [new_y[idx] = v] for a one-dimensional [v]: a one-element [v] is stored
    in the scalar slot, or broadcast over the row; a [v] as long as the row
    is copied; anything else does not fit. *)
Definition labels_setitem (new_y : labels) (idx : nat) (v : list Z)
  : result labels :=
  match new_y with
  | Arr1 xs =>
      match v with
      | [j] => Ok (Arr1 (update idx j xs))
      | _ => Raise cannot_assign
      end
  | Arr2 rows =>
      let k := length (nth idx rows []) in
      match v with
      | [j] => Ok (Arr2 (update idx (repeat j k) rows))
      | _ => if Nat.eqb (length v) k then Ok (Arr2 (update idx v rows))
             else Raise cannot_assign
      end
  end.

(** [np.not_equal(a, b).mean()] for two arrays of the same shape (the only
    case the callers produce): differing positions over all positions. *)
Fixpoint count_diff (a b : list Z) : nat :=
  match a, b with
  | x :: a', y :: b' =>
      ((if Z.eqb x y then 0%nat else 1%nat) + count_diff a' b')%nat
  | _, _ => 0%nat
  end.

Definition mean_not_equal (a b : labels) : Q :=
  (inject_Z (Z.of_nat (count_diff (flat a) (flat b)))
   / inject_Z (Z.of_nat (length (flat b))))%Q.

(** [v == s] for a value [v] that is a string or [None]. *)
Definition str_eq (v : option string) (s : string) : bool :=
  match v with
  | Some v' => String.eqb v' s
  | None => false
  end.

(** ** Assertions *)

Definition py_assert (b : bool) : M unit :=
  if b then ret tt else raise AssertionError.

(** [matrix.sum(axis=1)] *)
Definition row_sums (m : matrix) : list Q :=
  map (fun r => fold_left Qplus r 0%Q) m.

(** The tolerance of [assert_array_almost_equal] at its default
    [decimal=6]: [1.5 * 10**(-6)]. *)
Definition almost_tol : Q := (15 # 10000000)%Q.

Fixpoint all_almost_equal (actual desired : list Q) : bool :=
  match actual, desired with
  | [], [] => true
  | a :: actual', d :: desired' =>
      Qltb (Qabs (d - a)) almost_tol && all_almost_equal actual' desired'
  | _, _ => false
  end.

(** [assert_array_almost_equal(actual, desired)] on one-dimensional arrays:
    same shape and every [abs(desired - actual) < 1.5e-6]. *)
Definition assert_array_almost_equal (actual desired : list Q) : M unit :=
  py_assert (all_almost_equal actual desired).

(** [(matrix >= 0.0).all()] *)
Definition all_nonneg (m : matrix) : bool :=
  forallb (forallb (fun x => Qle_bool 0 x)) m.

(** ** The generator *)

(** What the sampler needs of [np.random.RandomState]: the state a seed
    produces and one categorical draw, which returns the drawn index and the
    next state, or nothing when the library rejects the probabilities. *)
Record Generator : Type := {
  gen_state : Type;
  gen_seed : Z -> gen_state;
  gen_choice : gen_state -> list Q -> option (nat * gen_state)
}.

Definition bad_seed : exn := ValueError "Seed must be between 0 and 2**32 - 1".
Definition bad_pvals : exn := ValueError "sum(pvals[:-1]) > 1.0".

Fixpoint for_eachM {A S : Type} (xs : list A) (s : S) (body : S -> A -> M S)
  : M S :=
  match xs with
  | [] => ret s
  | x :: xs' => s' <- body s x ;; for_eachM xs' s' body
  end.

Section Sampling.

Variable G : Generator.

(** The state [RandomState(None)] reads from the operating system. *)
Variable os_state : gen_state G.

(** [np.random.RandomState(random_state)] *)
Definition RandomState (random_state : option Z) : result (gen_state G) :=
  match random_state with
  | None => Ok os_state
  | Some seed =>
      if (0 <=? seed) && (seed <? 2 ^ 32) then Ok (gen_seed G seed)
      else Raise bad_seed
  end.

(** [flipper.multinomial(1, pvals, 1)]: one sample of one trial, a
    one-hot row.  A scalar [pvals] has no length.  The drawn index is
    capped at the last category, which is where numpy puts the trial that
    no earlier category took. *)
Definition multinomial_1_1 (flipper : gen_state G) (pvals : float_item)
  : result (list (list Z) * gen_state G) :=
  match pvals with
  | FScalar _ => Raise TypeError
  | FRow p =>
      match gen_choice G flipper p with
      | None => Raise bad_pvals
      | Some (j, flipper') =>
          let d := length p in
          let j' := Nat.min j (d - 1) in
          Ok ([map (fun c => if Nat.eqb c j' then 1 else 0) (seq 0 d)],
              flipper')
      end
  end.

(** The body of the loop of [multiclass_noisify], lines 116-119. *)
Definition noisify_step (y : labels) (m : matrix)
           (s : labels * gen_state G) (idx : nat)
  : M (labels * gen_state G) :=
  let (new_y, flipper) := s in
  let i := labels_getitem y idx in
  rows <- lift (matrix_rows m i) ;;
  pvals <- lift (first_item rows) ;;
  tell EvDraw ;;;
  drawn <- lift (multinomial_1_1 flipper pvals) ;;
  let (samples, flipper') := drawn in
  let flipped := nth 0 samples [] in
  new_y' <- lift (labels_setitem new_y idx (where_eq_1 flipped)) ;;
  ret (new_y', flipper').

(** [multiclass_noisify(y, matrix, random_state)] *)
Definition multiclass_noisify (y : labels) (m : matrix)
           (random_state : option Z) : M labels :=
  tell EvSampler ;;;
  py_assert (Nat.eqb (shape0 m) (shape1 m)) ;;;
  mx <- lift (np_max y) ;;
  py_assert (mx <? Z.of_nat (shape0 m)) ;;;
  assert_array_almost_equal (row_sums m) (repeat 1%Q (shape1 m)) ;;;
  py_assert (all_nonneg m) ;;;
  let m_ := labels_shape0 y in
  let new_y := y in
  flipper <- lift (RandomState random_state) ;;
  s <- for_eachM (seq 0 m_) (new_y, flipper) (noisify_step y m) ;;
  ret (fst s).

(** [noisify_pairflip(y_train, noise, random_state, nb_classes)] *)
Definition noisify_pairflip (y_train : labels) (noise : Q)
           (random_state : option Z) (nb_classes : Z)
  : M (labels * option Q) :=
  matrix0 <- np_eye nb_classes ;;
  let n := noise in
  if Qltb 0 n then
    matrix1 <- lift (pairflip_fill matrix0 n nb_classes) ;;
    y_train_noisy <- multiclass_noisify y_train matrix1 random_state ;;
    let actual_noise := mean_not_equal y_train_noisy y_train in
    py_assert (Qltb 0 actual_noise) ;;;
    tell (EvPrint actual_noise) ;;;
    ret (y_train_noisy, Some actual_noise)
  else ret (y_train, None).

(** [noisify_multiclass_symmetric(y_train, noise, random_state, nb_classes)] *)
Definition noisify_multiclass_symmetric (y_train : labels) (noise : Q)
           (random_state : option Z) (nb_classes : Z)
  : M (labels * option Q) :=
  matrix0 <- np_ones nb_classes ;;
  let n := noise in
  c <- lift (float_div_int n (nb_classes - 1)) ;;
  let matrix1 := scale c matrix0 in
  if Qltb 0 n then
    matrix2 <- lift (symmetric_fill matrix1 n nb_classes) ;;
    y_train_noisy <- multiclass_noisify y_train matrix2 random_state ;;
    let actual_noise := mean_not_equal y_train_noisy y_train in
    py_assert (Qltb 0 actual_noise) ;;;
    tell (EvPrint actual_noise) ;;;
    ret (y_train_noisy, Some actual_noise)
  else ret (y_train, None).

Definition unsupported_noise_type : exn := ValueError "Unsupported noise type".

(** [noisify(nb_classes, train_labels, noise_type, noise_rate, random_state)];
    [noise_type] is a string or [None]. *)
Definition noisify (nb_classes : Z) (train_labels : labels)
           (noise_type : option string) (noise_rate : Q) (random_state : option Z)
  : M (labels * option Q) :=
  if str_eq noise_type "pairflip" then
    noisify_pairflip train_labels noise_rate random_state nb_classes
  else if str_eq noise_type "symmetric" then
    noisify_multiclass_symmetric train_labels noise_rate random_state nb_classes
  else raise unsupported_noise_type.

End Sampling.

(** ** A concrete generator

    Inverse-transform sampling driven by a linear congruential stream: the
    instance used to run the sampler on examples. *)

Fixpoint inverse_cdf (p : list Q) (u : Q) : nat :=
  match p with
  | [] => 0%nat
  | x :: p' => if Qltb u x then 0%nat else S (inverse_cdf p' (u - x)%Q)
  end.

Definition lcg_next (s : Z) : Z := (1103515245 * s + 12345) mod 2 ^ 31.

Definition lcg_generator : Generator := {|
  gen_state := Z;
  gen_seed := fun seed => seed;
  gen_choice := fun s p =>
    if Qltb (1 + (1 # 1000000000000))%Q (fold_left Qplus (removelast p) 0%Q)
    then None
    else let s' := lcg_next s in
         Some (inverse_cdf p (inject_Z s' / inject_Z (2 ^ 31))%Q, s')
|}.

(** ** Shapes, topologies and the properties of a transition matrix *)

(** A [c] by [c] array. *)
Definition square_of (c : nat) (m : matrix) : Prop :=
  length m = c /\ Forall (fun r => length r = c) m.

(** The two noise topologies and the builder of each. *)
Inductive topology : Type := Pairflip | Symmetric.

Definition transition_matrix (t : topology) (noise : Q) (nb_classes : Z) : M matrix :=
  match t with
  | Pairflip => pairflip_matrix noise nb_classes
  | Symmetric => symmetric_matrix noise nb_classes
  end.

Definition topology_name (t : topology) : string :=
  match t with
  | Pairflip => "pairflip"
  | Symmetric => "symmetric"
  end.

Definition row_sum (r : list Q) : Q := fold_left Qplus r 0%Q.

(** The sum of [g s], ..., [g (s + len - 1)]. *)
Fixpoint sumf (g : nat -> Q) (s len : nat) : Q :=
  match len with
  | O => 0%Q
  | S len' => (g s + sumf g (S s) len')%Q
  end.

(** A function that is [v] at [i] and 0 elsewhere. *)
Definition point (i : nat) (v : Q) (j : nat) : Q := if Nat.eqb j i then v else 0%Q.

(** A row-stochastic matrix: every row sums to 1 within [tol] and has no
    negative entry. *)
Definition row_stochastic (tol : Q) (m : matrix) : Prop :=
  forall r, In r m ->
    (Qabs (row_sum r - 1) <= tol)%Q /\ Forall (fun x => (0 <= x)%Q) r.

(** The four preconditions of the sampler, as propositions. *)

(** 1. the matrix is square *)
Definition matrix_is_square (m : matrix) : Prop := shape0 m = shape1 m.

(** 2. [max(labels) < matrix.rows], on a non-empty label array: every label
    is below the number of rows *)
Definition labels_below_rows (y : labels) (m : matrix) : Prop :=
  Forall (fun l => l < Z.of_nat (shape0 m)) (flat y).

(** 3. every row sums to 1.0 within the tolerance of the check *)
Definition rows_sum_to_one (m : matrix) : Prop :=
  Forall (fun r => (Qabs (1 - row_sum r) < almost_tol)%Q) m.

(** 4. all entries are >= 0 *)
Definition entries_nonneg (m : matrix) : Prop :=
  Forall (Forall (fun x => (0 <= x)%Q)) m.

Definition preconditions (y : labels) (m : matrix) : Prop :=
  matrix_is_square m /\ labels_below_rows y m
  /\ rows_sum_to_one m /\ entries_nonneg m.

(** A result that is not the failure of an assertion. *)
Definition no_assertion {A : Type} (r : result A) : Prop :=
  match r with
  | Raise AssertionError => False
  | _ => True
  end.

(** ** The two halves of the sampler and of its callers *)

(** The four checks of lines 104-109, as one boolean. *)
Definition checks (mx : Z) (m : matrix) : bool :=
  Nat.eqb (shape0 m) (shape1 m)
  && (mx <? Z.of_nat (shape0 m))
  && all_almost_equal (row_sums m) (repeat 1%Q (shape1 m))
  && all_nonneg m.

Section Decomposition.

Variable G : Generator.
Variable os_state : gen_state G.

(** The part of [multiclass_noisify] after the four checks, lines
    110-120. *)
Definition draw_all (y : labels) (m : matrix) (random_state : option Z)
  : M labels :=
  flipper <- lift (RandomState G os_state random_state) ;;
  s <- for_eachM (seq 0 (labels_shape0 y)) (y, flipper) (noisify_step G y m) ;;
  ret (fst s).

(** What [noisify_pairflip] and [noisify_multiclass_symmetric] do with the
    matrix once it is built: lines 138-146 and 164-172. *)
Definition sample_and_check (y_train : labels) (noise : Q)
           (random_state : option Z) (m : matrix) : M (labels * option Q) :=
  if Qltb 0 noise then
    y_train_noisy <- multiclass_noisify G os_state y_train m random_state ;;
    let actual_noise := mean_not_equal y_train_noisy y_train in
    py_assert (Qltb 0 actual_noise) ;;;
    tell (EvPrint actual_noise) ;;;
    ret (y_train_noisy, Some actual_noise)
  else ret (y_train, None).

End Decomposition.

(** A label array used in the examples. *)
Definition five_zeros : labels := Arr2 [[0]; [0]; [0]; [0]; [0]].

(** * Further definitions *)

From Stdlib Require Import Ascii.

(** ** What the sampler guarantees *)

(** The row of the matrix that a label selects: numpy counts a negative
    index from the end. *)
Definition wrap_index (c : nat) (l : Z) : nat :=
  Z.to_nat (if l <? 0 then l + Z.of_nat c else l).

(** Labels that index a matrix of [c] rows without an [IndexError]. *)
Definition index_in_bounds (c : nat) (l : Z) : Prop :=
  - Z.of_nat c <= l < Z.of_nat c.

(** Row [r'] of the output against row [r] of the input: one class [j] was
    drawn from the matrix row that the first label of [r] selects, [j]
    satisfies [good] there, and it fills the whole row. *)
Definition row_resampled (m : matrix) (good : list Q -> nat -> Prop)
           (r r' : list Z) : Prop :=
  exists j : nat,
    (j < length (nth (wrap_index (shape0 m) (hd 0%Z r)) m []))%nat
    /\ good (nth (wrap_index (shape0 m) (hd 0%Z r)) m []) j
    /\ r' = repeat (Z.of_nat j) (length r).

(** A generator that never rejects a row of [m]. *)
Definition accepts (G : Generator) (m : matrix) : Prop :=
  forall st p, In p m -> gen_choice G st p <> None.

(** A generator that, given a row of [m], only draws classes of positive
    probability in that row.  The drawn index is read as the sampler reads
    it, capped at the last category; nothing is required of the generator
    on other probability vectors. *)
Definition draws_from_support (G : Generator) (m : matrix) : Prop :=
  forall st p j st',
    In p m -> gen_choice G st p = Some (j, st') ->
    (0 < nth (Nat.min j (length p - 1)) p 0)%Q.

(** The simplest such generator: always the first class of positive
    probability. *)
Fixpoint first_positive (p : list Q) : option nat :=
  match p with
  | [] => None
  | x :: p' => if Qltb 0 x then Some 0%nat else option_map S (first_positive p')
  end.

Definition first_positive_generator : Generator := {|
  gen_state := unit;
  gen_seed := fun _ => tt;
  gen_choice := fun st p => option_map (fun j => (j, st)) (first_positive p)
|}.

(** The sum of column [b] of a matrix. *)
Definition col_sum (m : matrix) (b : nat) : Q :=
  sumf (fun a => entry m a b) 0 (length m).

(** The probability that a label of class [a] is observed as class [b],
    for [C] classes and noise level [n]. *)
Definition transition_probability (t : topology) (C : nat) (n : Q) (a b : nat) : Q :=
  match t with
  | Pairflip =>
      if Nat.eqb b a then (1 - n)%Q
      else if Nat.eqb b (S a mod C) then n else 0%Q
  | Symmetric =>
      if Nat.eqb b a then (1 - n)%Q else (n / inject_Z (Z.of_nat C - 1))%Q
  end.

(** A matrix and label arrays for the examples. *)
Definition example_matrix : matrix := [[1 # 2; 1 # 2]; [1 # 4; 3 # 4]]%Q.

Definition example_rows : list (list Z) := [[0]; [1]; [-1]].

(** A matrix that passes the checks although its first row sums to
    0.999999 only. *)
Definition deficient_matrix : matrix := [[999999 # 1000000; 0]; [0; 1]]%Q.

Definition three_labels : list (list Z) := [[0]; [1]; [1]].

Definition one_zero : labels := Arr2 [[0]].

Definition sampled_labels : labels := Arr2 [[0]; [2]; [1]].


Definition two_rows : list (list Z) := [[0]; [1]].

Definition low_row : list Z := [-3].

Definition last_rows : list (list Z) := [[1]].


(** * The file utilities of [data/utils.py]

    The operating system and the network are not part of the repository.
    Regular files are a store from paths to contents (a byte string), and a
    regular file can be opened and read to its end; the other services ([os.path.expanduser], [os.listdir], [os.path.isdir],
    [os.makedirs], [urllib.request.urlretrieve], [hashlib.md5]) are
    parameters.  Paths follow [posixpath].  Strings are byte strings;
    [str.lower] is modelled on ASCII letters. *)

(** ** Strings *)

(** [c.lower()] for an ASCII character. *)
Definition ascii_lower (c : ascii) : ascii :=
  let n := nat_of_ascii c in
  if Nat.leb 65 n && Nat.leb n 90 then ascii_of_nat (n + 32) else c.

Definition ascii_upper (c : ascii) : ascii :=
  let n := nat_of_ascii c in
  if Nat.leb 97 n && Nat.leb n 122 then ascii_of_nat (n - 32) else c.

(** [s.lower()] *)
Fixpoint str_lower (s : string) : string :=
  match s with
  | EmptyString => EmptyString
  | String c s' => String (ascii_lower c) (str_lower s')
  end.

(** Every way of writing [s] in upper and lower case letters. *)
Fixpoint capitalisations (s : string) : list string :=
  match s with
  | EmptyString => [EmptyString]
  | String c s' =>
      map (String (ascii_lower c)) (capitalisations s')
      ++ map (String (ascii_upper c)) (capitalisations s')
  end.

(** The 256 characters. *)
Definition all_ascii : list ascii := map ascii_of_nat (seq 0 256).

(** [s.endswith(suf)]: some suffix of [s] is [suf]. *)
Fixpoint str_endswith (s suf : string) : bool :=
  if String.eqb s suf then true
  else match s with
       | EmptyString => false
       | String _ s' => str_endswith s' suf
       end.

(** [s.startswith(pre)] *)
Definition str_startswith (s pre : string) : bool := String.prefix pre s.

(** [s.replace(old, new)] for a non-empty [old]: the occurrences of [old]
    are replaced from left to right; [skip] counts the characters of an
    occurrence still to be dropped. *)
Fixpoint str_replace_from (skip : nat) (old new s : string) : string :=
  match s with
  | EmptyString => EmptyString
  | String c s' =>
      match skip with
      | S skip' => str_replace_from skip' old new s'
      | O =>
          if String.prefix old s
          then new ++ str_replace_from (String.length old - 1) old new s'
          else String c (str_replace_from 0 old new s')
      end
  end.

Definition str_replace (old new s : string) : string :=
  str_replace_from 0 old new s.

(** The first [k] bytes of [s], and the rest. *)
Fixpoint str_take (k : N) (s : string) : string :=
  match s with
  | EmptyString => EmptyString
  | String c s' =>
      if (k =? 0)%N then EmptyString else String c (str_take (N.pred k) s')
  end.

Fixpoint str_drop (k : N) (s : string) : string :=
  match s with
  | EmptyString => EmptyString
  | String c s' => if (k =? 0)%N then s else str_drop (N.pred k) s'
  end.

(** ** [boolean_string] *)

Definition not_a_boolean : exn := ValueError "Not a valid boolean string!!!".

(** [boolean_string(bool_str)] *)
Definition boolean_string (bool_str : string) : result bool :=
  let bool_str := str_lower bool_str in
  if negb (String.eqb bool_str "false" || String.eqb bool_str "true")
  then Raise not_a_boolean
  else Ok (String.eqb bool_str "true").

(** ** Paths *)

(** [os.path.join(a, b)] of [posixpath]. *)
Definition path_join (a b : string) : string :=
  if str_startswith b "/" then b
  else if String.eqb a "" || str_endswith a "/" then a ++ b
  else a ++ "/" ++ b.

(** ** Exceptions and the environment *)

(** [OSError] with its [errno]; [ConnectionError] is the subclass marked
    [connection]; everything else is [OtherError]. *)
Inductive io_exn : Type :=
| OSError (connection : bool) (errno : Z)
| OtherError (name : string).

Inductive io_result (A : Type) : Type :=
| Done (a : A)
| Fail (e : io_exn).

Arguments Done {A} a.
Arguments Fail {A} e.

Definition EEXIST : Z := 17.

(** The regular files: the content at each path that [os.path.isfile]
    accepts. *)
Definition file_store : Type := string -> option string.

(** [os.path.isfile(path)] *)
Definition isfile (w : file_store) (path : string) : bool :=
  match w path with Some _ => true | None => false end.

Record Environment : Type := {
  expanduser : string -> string;
  listdir : string -> io_result (list string);
  isdir : string -> bool;
  makedirs : string -> file_store -> io_result unit * file_store;
  urlretrieve : string -> string -> file_store -> io_result unit * file_store
}.

(** [hashlib.md5]: a fresh state, [update] and [hexdigest]. *)
Record Hasher : Type := {
  hash_state : Type;
  hash_new : hash_state;
  hash_update : hash_state -> string -> hash_state;
  hexdigest : hash_state -> string
}.

(** What [hashlib] guarantees of [update]: feeding two chunks is feeding
    their concatenation, and feeding nothing changes nothing. *)
Definition streaming (H : Hasher) : Prop :=
  (forall st a b,
      hash_update H (hash_update H st a) b = hash_update H st (a ++ b))
  /\ (forall st, hash_update H st "" = st).

(** ** [check_integrity] *)

(** The loop [for chunk in iter(lambda: f.read(k), b''): md5o.update(chunk)]
    on a file whose unread part is [rest]; [fuel] bounds the number of
    reads. *)
Fixpoint update_by_chunks (H : Hasher) (fuel : nat) (k : N)
         (md5o : hash_state H) (rest : string) : hash_state H :=
  match fuel with
  | O => md5o
  | S fuel' =>
      let chunk := str_take k rest in
      if String.eqb chunk "" then md5o
      else update_by_chunks H fuel' k (hash_update H md5o chunk) (str_drop k rest)
  end.

(** [check_integrity(fpath, md5)] *)
Definition check_integrity (H : Hasher) (w : file_store) (fpath md5 : string)
  : bool :=
  match w fpath with
  | None => false
  | Some content =>
      let md5o :=
        update_by_chunks H (S (String.length content)) (1024 * 1024)%N
                         (hash_new H) content in
      let md5c := hexdigest H md5o in
      if negb (String.eqb md5c md5) then false else true
  end.

(** ** [list_dir] and [list_files] *)

(** [list_dir(root, prefix)]; [prefix] is a boolean. *)
Definition list_dir (E : Environment) (root : string) (prefix : bool)
  : io_result (list string) :=
  let root := expanduser E root in
  match listdir E root with
  | Fail e => Fail e
  | Done names =>
      let directories := filter (fun p => isdir E (path_join root p)) names in
      if prefix then Done (map (fun d => path_join root d) directories)
      else Done directories
  end.

(** The [suffix] argument of [str.endswith]: a string or a tuple of
    strings. *)
Inductive suffix_arg : Type :=
| OneSuffix (s : string)
| AnySuffix (ss : list string).

(** [p.endswith(suffix)] *)
Definition endswith_arg (p : string) (suffix : suffix_arg) : bool :=
  match suffix with
  | OneSuffix s => str_endswith p s
  | AnySuffix ss => existsb (str_endswith p) ss
  end.

(** [list_files(root, suffix, prefix)] *)
Definition list_files (E : Environment) (w : file_store) (root : string)
           (suffix : suffix_arg) (prefix : bool) : io_result (list string) :=
  let root := expanduser E root in
  match listdir E root with
  | Fail e => Fail e
  | Done names =>
      let files :=
        filter (fun p => isfile w (path_join root p) && endswith_arg p suffix)
               names in
      if prefix then Done (map (fun d => path_join root d) files)
      else Done files
  end.

(** ** [download_url] *)

Inductive io_event : Type :=
| IoPrint (msg : string)
| IoMakedirs (root : string)
| IoRetrieve (url fpath : string).

(** The part of [download_url] after the directory exists: lines 37-49. *)
Definition fetch_if_needed (E : Environment) (H : Hasher)
           (url fpath md5 : string) (w : file_store)
  : list io_event * io_result unit * file_store :=
  if isfile w fpath && check_integrity H w fpath md5 then
    ([IoPrint ("Using downloaded and verified file: " ++ fpath)], Done tt, w)
  else
    let log1 := [IoPrint ("Downloading " ++ url ++ " to " ++ fpath);
                 IoRetrieve url fpath] in
    match urlretrieve E url fpath w with
    | (Fail (OSError true errno), w1) =>
        if String.eqb (substring 0 5 url) "https" then
          let url := str_replace "https:" "http:" url in
          let log2 :=
            [IoPrint ("Failed download. Trying https -> http instead."
                        ++ " Downloading " ++ url ++ " to " ++ fpath);
             IoRetrieve url fpath] in
          match urlretrieve E url fpath w1 with
          | (r, w2) => (log1 ++ log2, r, w2)
          end
        else (log1, Done tt, w1)
    | (r, w1) => (log1, r, w1)
    end.

(** [download_url(url, root, filename, md5)] *)
Definition download_url (E : Environment) (H : Hasher)
           (url root filename md5 : string) (w : file_store)
  : list io_event * io_result unit * file_store :=
  let root := expanduser E root in
  let fpath := path_join root filename in
  match makedirs E root w with
  | (Fail (OSError connection errno), w1) =>
      if errno =? EEXIST then
        let '(log, r, w2) := fetch_if_needed E H url fpath md5 w1 in
        (IoMakedirs root :: log, r, w2)
      else ([IoMakedirs root], Fail (OSError connection errno), w1)
  | (Fail e, w1) => ([IoMakedirs root], Fail e, w1)
  | (Done _, w1) =>
      let '(log, r, w2) := fetch_if_needed E H url fpath md5 w1 in
      (IoMakedirs root :: log, r, w2)
  end.

(** ** An environment for the examples *)

Definition example_store : file_store :=
  fun path =>
    if String.eqb path "/data/a.png" then Some "abc"%string
    else if String.eqb path "/data/b.jpg" then Some "defg"%string
    else if String.eqb path "/data/c.txt" then Some ""%string
    else None.

(** A network on which only plain http answers. *)
Definition example_env : Environment := {|
  expanduser := fun p =>
    match p with
    | String "~" rest => ("/home/user" ++ rest)%string
    | _ => p
    end;
  listdir := fun root =>
    if String.eqb root "/data"
    then Done ["a.png"; "b.jpg"; "sub"; "c.txt"]%string
    else Fail (OSError false 2);
  isdir := fun path => String.eqb path "/data/sub";
  makedirs := fun root w =>
    if String.eqb root "/data" then (Fail (OSError false EEXIST), w)
    else (Done tt, w);
  urlretrieve := fun url fpath w =>
    if String.prefix "http:" url
    then (Done tt, fun path => if String.eqb path fpath then Some "payload"%string
                               else w path)
    else (Fail (OSError true 104), w)
|}.

(** A hasher that keeps everything it is fed. *)
Definition example_hasher : Hasher := {|
  hash_state := string;
  hash_new := ""%string;
  hash_update := fun st chunk => (st ++ chunk)%string;
  hexdigest := fun st => st
|}.

(** The retrievals on record, in order: the url and the target of each. *)
Fixpoint retrievals (log : list io_event) : list (string * string) :=
  match log with
  | [] => []
  | IoRetrieve url fpath :: log' => (url, fpath) :: retrievals log'
  | _ :: log' => retrievals log'
  end.


(** * The symmetric builder in binary64

    The builders above compute in [Q].  Where the value of a float matters
    to the last bit, this is the builder of
    [noisify_multiclass_symmetric] again, over IEEE 754 binary64 (the
    kernel's primitive floats): [1. - n], [n / (nb_classes - 1)] and the
    scalar product are the rounded operations of the source, and a decimal
    literal denotes the nearest binary64 number, as it does in Python. *)

From Stdlib Require Import PrimFloat.

#[local] Set Warnings "-inexact-float".

Module Binary64.

Definition matrix : Type := list (list float).

Definition shape0 (m : matrix) : nat := length m.

Definition shape1 (m : matrix) : nat :=
  match m with
  | [] => 0%nat
  | r :: _ => length r
  end.

(** [matrix[i][j]] for in-range natural indices (0 outside). *)
Definition entry (m : matrix) (i j : nat) : float := nth j (nth i m []) 0%float.

(** [matrix[i, j] = v] *)
Definition setitem2 (m : matrix) (i j : Z) (v : float) : result matrix :=
  i' <~ norm_index (shape0 m) i ;;
  j' <~ norm_index (shape1 m) j ;;
  Ok (update i' (update j' v (nth i' m [])) m).

Definition ones_rows (c : nat) : matrix := repeat (repeat 1%float c) c.

(** [np.ones((n, n))] *)
Definition np_ones (n : Z) : M matrix :=
  if n <? 0 then raise negative_dimensions
  else tell EvAlloc ;;; ret (ones_rows (Z.to_nat n)).

(** [c * matrix] *)
Definition scale (c : float) (m : matrix) : matrix :=
  map (map (fun x => (c * x)%float)) m.

(** [float(k)] for a positive int, by binary expansion: every step is exact
    below 2^53, far above the size of a matrix that can be allocated. *)
Fixpoint float_of_positive (p : positive) : float :=
  match p with
  | xH => 1%float
  | xO p' => (2 * float_of_positive p')%float
  | xI p' => (2 * float_of_positive p' + 1)%float
  end.

Definition float_of_int (k : Z) : float :=
  match k with
  | Z0 => 0%float
  | Zpos p => float_of_positive p
  | Zneg p => (- float_of_positive p)%float
  end.

(** [n / k] for a float [n] and an int [k] *)
Definition float_div_int (n : float) (k : Z) : result float :=
  if k =? 0 then Raise ZeroDivisionError else Ok (n / float_of_int k)%float.

(** Lines 159-162 of [noisify_multiclass_symmetric]. *)
Definition symmetric_fill (matrix0 : matrix) (n : float) (nb_classes : Z)
  : result matrix :=
  m <~ setitem2 matrix0 0 0 (1 - n)%float ;;
  m <~ for_each (py_range 1 (nb_classes - 1)) m
        (fun m i => setitem2 m i i (1 - n)%float) ;;
  setitem2 m (nb_classes - 1) (nb_classes - 1) (1 - n)%float.

(** The local [matrix] of [noisify_multiclass_symmetric] once the builder
    part has run: [np.ones], the scaling by [n / (nb_classes - 1)] and,
    under [n > 0.0], the diagonal. *)
Definition symmetric_matrix (noise : float) (nb_classes : Z) : M matrix :=
  matrix0 <- np_ones nb_classes ;;
  c <- lift (float_div_int noise (nb_classes - 1)) ;;
  let matrix1 := scale c matrix0 in
  if (0 <? noise)%float then lift (symmetric_fill matrix1 noise nb_classes)
  else ret matrix1.

(** A [c] by [c] array. *)
Definition square_of (c : nat) (m : matrix) : Prop :=
  length m = c /\ Forall (fun r => length r = c) m.

End Binary64.

(** * Lemmas on lists and indices *)

Ltac bdestruct :=
  repeat match goal with
  | |- context [Nat.eqb ?a ?b] => destruct (Nat.eqb_spec a b)
  | |- context [Nat.ltb ?a ?b] => destruct (Nat.ltb_spec a b)
  | |- context [Nat.leb ?a ?b] => destruct (Nat.leb_spec a b)
  | |- context [Z.eqb ?a ?b] => destruct (Z.eqb_spec a b)
  | |- context [Z.ltb ?a ?b] => destruct (Z.ltb_spec a b)
  | |- context [Z.leb ?a ?b] => destruct (Z.leb_spec a b)
  end.

Lemma update_length {A : Type} (k : nat) (v : A) (l : list A) :
  length (update k v l) = length l.
Proof.
  revert k; induction l as [|h t IH]; intros [|k]; simpl; auto.
Qed.

Lemma nth_update {A : Type} (k k' : nat) (v d : A) (l : list A) :
  nth k' (update k v l) d =
  if Nat.eqb k' k && Nat.ltb k (length l) then v else nth k' l d.
Proof.
  revert k k'; induction l as [|h t IH]; intros k k'.
  - simpl. rewrite andb_false_r. now destruct k.
  - destruct k as [|k], k' as [|k']; simpl; auto.
Qed.

Lemma norm_index_in_range (dim : nat) (i : nat) :
  (i < dim)%nat -> norm_index dim (Z.of_nat i) = Ok i.
Proof.
  intros H. unfold norm_index.
  replace ((0 <=? Z.of_nat i) && (Z.of_nat i <? Z.of_nat dim)) with true
    by (symmetry; apply andb_true_iff; split;
        [apply Z.leb_le | apply Z.ltb_lt]; lia).
  now rewrite Nat2Z.id.
Qed.

Lemma norm_index_out_of_range (dim : nat) (i : Z) :
  Z.of_nat dim <= i -> norm_index dim i = Raise IndexError.
Proof.
  intros H. unfold norm_index. bdestruct; simpl; auto; lia.
Qed.

Lemma square_of_shape (c : nat) (m : matrix) :
  square_of c m -> shape0 m = c /\ shape1 m = c.
Proof.
  intros [Hl Hr]. split; [exact Hl|].
  destruct m as [|r m]; simpl in *; [auto|].
  now inversion Hr.
Qed.

Lemma square_of_row (c : nat) (m : matrix) (i : nat) :
  square_of c m -> (i < c)%nat -> length (nth i m []) = c.
Proof.
  intros [Hl Hr] Hi. rewrite Forall_forall in Hr.
  apply Hr, nth_In. lia.
Qed.

Lemma Forall_update {A : Type} (P : A -> Prop) (k : nat) (v : A) (l : list A) :
  Forall P l -> P v -> Forall P (update k v l).
Proof.
  intros Hl Hv. revert k.
  induction Hl as [|h t Hh Ht IH]; intros [|k]; simpl; auto.
Qed.

(** [matrix[i, j] = v] on a square array, in range: succeeds, keeps the
    shape and changes exactly the entry [(i, j)]. *)
Lemma setitem2_spec (c : nat) (m : matrix) (i j : nat) (v : Q) :
  square_of c m -> (i < c)%nat -> (j < c)%nat ->
  exists m', setitem2 m (Z.of_nat i) (Z.of_nat j) v = Ok m'
             /\ square_of c m'
             /\ forall a b, entry m' a b =
                            if Nat.eqb a i && Nat.eqb b j then v else entry m a b.
Proof.
  intros Hm Hi Hj.
  destruct (square_of_shape _ _ Hm) as [H0 H1].
  pose proof (square_of_row _ _ i Hm Hi) as Hrow.
  unfold setitem2. rewrite H0, H1.
  rewrite (norm_index_in_range c i Hi), (norm_index_in_range c j Hj). simpl.
  eexists; split; [reflexivity|]. split.
  - destruct Hm as [Hl Hr]. split.
    + now rewrite update_length.
    + apply Forall_update; [exact Hr|]. now rewrite update_length.
  - intros a b. unfold entry.
    rewrite (nth_update i a). destruct Hm as [Hl Hr]. rewrite Hl.
    destruct (Nat.eqb_spec a i) as [->|Hai]; simpl.
    + replace (Nat.ltb i c) with true by (symmetry; apply Nat.ltb_lt; lia).
      rewrite (nth_update j b), Hrow.
      replace (Nat.ltb j c) with true by (symmetry; apply Nat.ltb_lt; lia).
      now rewrite andb_true_r.
    + reflexivity.
Qed.

Lemma py_range_nil (lo hi : Z) : hi <= lo -> py_range lo hi = [].
Proof.
  intros H. unfold py_range.
  replace (Z.to_nat (hi - lo)) with 0%nat by lia. reflexivity.
Qed.

Lemma py_range_cons (lo hi : Z) :
  lo < hi -> py_range lo hi = lo :: py_range (lo + 1) hi.
Proof.
  intros H. unfold py_range.
  replace (Z.to_nat (hi - lo)) with (S (Z.to_nat (hi - (lo + 1)))) by lia.
  simpl. f_equal; [lia|].
  rewrite <- seq_shift, map_map. apply map_ext. intros k. lia.
Qed.

Ltac case_entries := bdestruct; simpl; try reflexivity; try (exfalso; lia).

(** * Worked examples *)

Example pairflip_3_half :
  pairflip_matrix (1#2) 3 =
  ([EvAlloc], Ok [[1#2; 1#2; 0]; [0; 1#2; 1#2]; [1#2; 0; 1#2]]%Q).
Proof. vm_compute. reflexivity. Qed.

(** The third worked example of the specification: five labels of class 0,
    two classes, noise 1.0, symmetric, seed 0. *)
Example symmetric_all_flip :
  noisify lcg_generator 0 2 (Arr2 [[0]; [0]; [0]; [0]; [0]])
          (Some "symmetric"%string) 1%Q (Some 0)
  = ([EvAlloc; EvSampler; EvDraw; EvDraw; EvDraw; EvDraw; EvDraw; EvPrint (5 # 5)],
     Ok (Arr2 [[1]; [1]; [1]; [1]; [1]], Some (5 # 5)%Q)).
Proof. vm_compute. reflexivity. Qed.

(** * The builders *)

Section Builders.

Variable n : Q.

(** The loop of lines 134-135 over [range(lo, hi)] rewrites rows
    [lo .. hi-1] and nothing else. *)
Lemma pairflip_loop (c k : nat) :
  forall (lo hi : Z) (m : matrix),
    Z.to_nat (hi - lo) = k -> 0 <= lo -> hi < Z.of_nat c -> square_of c m ->
    exists m',
      for_each (py_range lo hi) m
        (fun m i => m <~ setitem2 m i i (1 - n)%Q ;; setitem2 m i (i + 1) n)
      = Ok m'
      /\ square_of c m'
      /\ forall a b,
          entry m' a b =
          if (lo <=? Z.of_nat a) && (Z.of_nat a <? hi)
          then (if Nat.eqb b a then (1 - n)%Q
                else if Nat.eqb b (S a) then n else entry m a b)
          else entry m a b.
Proof.
  induction k as [|k IH]; intros lo hi m Hk Hlo Hhi Hm.
  - rewrite py_range_nil by lia. exists m. repeat split; try apply Hm.
    intros a b. case_entries.
  - rewrite py_range_cons by lia. simpl.
    destruct (setitem2_spec c m (Z.to_nat lo) (Z.to_nat lo) (1 - n)%Q Hm)
      as (m1 & E1 & Hm1 & H1); try lia.
    destruct (setitem2_spec c m1 (Z.to_nat lo) (S (Z.to_nat lo)) n Hm1)
      as (m2 & E2 & Hm2 & H2); try lia.
    rewrite Z2Nat.id in E1, E2 by lia.
    replace (Z.of_nat (S (Z.to_nat lo))) with (lo + 1) in E2 by lia.
    rewrite E1. simpl. rewrite E2.
    destruct (IH (lo + 1) hi m2) as (m' & E' & Hm' & H'); try lia; auto.
    exists m'. split; [exact E'|]. split; [exact Hm'|].
    intros a b. rewrite H', H2, H1. case_entries.
Qed.

Lemma symmetric_loop (c k : nat) :
  forall (lo hi : Z) (m : matrix),
    Z.to_nat (hi - lo) = k -> 0 <= lo -> hi <= Z.of_nat c -> square_of c m ->
    exists m',
      for_each (py_range lo hi) m (fun m i => setitem2 m i i (1 - n)%Q) = Ok m'
      /\ square_of c m'
      /\ forall a b,
          entry m' a b =
          if (lo <=? Z.of_nat a) && (Z.of_nat a <? hi) && Nat.eqb b a
          then (1 - n)%Q else entry m a b.
Proof.
  induction k as [|k IH]; intros lo hi m Hk Hlo Hhi Hm.
  - rewrite py_range_nil by lia. exists m. repeat split; try apply Hm.
    intros a b. case_entries.
  - rewrite py_range_cons by lia. simpl.
    destruct (setitem2_spec c m (Z.to_nat lo) (Z.to_nat lo) (1 - n)%Q Hm)
      as (m1 & E1 & Hm1 & H1); try lia.
    rewrite Z2Nat.id in E1 by lia. rewrite E1.
    destruct (IH (lo + 1) hi m1) as (m' & E' & Hm' & H'); try lia; auto.
    exists m'. split; [exact E'|]. split; [exact Hm'|].
    intros a b. rewrite H', H1. case_entries.
Qed.

Lemma pairflip_fill_spec (c : nat) (m : matrix) :
  (2 <= c)%nat -> square_of c m ->
  exists m',
    pairflip_fill m n (Z.of_nat c) = Ok m'
    /\ square_of c m'
    /\ forall a b, (a < c)%nat -> (b < c)%nat ->
        entry m' a b =
        if Nat.eqb b a then (1 - n)%Q
        else if Nat.eqb b (S a mod c) then n else entry m a b.
Proof.
  intros Hc Hm. unfold pairflip_fill.
  destruct (setitem2_spec c m 0 0 (1 - n)%Q Hm) as (m1 & E1 & Hm1 & H1); try lia.
  destruct (setitem2_spec c m1 0 1 n Hm1) as (m2 & E2 & Hm2 & H2); try lia.
  destruct (pairflip_loop c (c - 2) 1 (Z.of_nat c - 1) m2)
    as (m3 & E3 & Hm3 & H3); try lia; auto.
  destruct (setitem2_spec c m3 (c - 1) (c - 1) (1 - n)%Q Hm3)
    as (m4 & E4 & Hm4 & H4); try lia.
  destruct (setitem2_spec c m4 (c - 1) 0 n Hm4) as (m5 & E5 & Hm5 & H5); try lia.
  replace (Z.of_nat (c - 1)) with (Z.of_nat c - 1) in E4, E5 by lia.
  simpl Z.of_nat in E1, E2, E5.
  rewrite E1; simpl. rewrite E2; simpl. rewrite E3; simpl. rewrite E4; simpl.
  exists m5. split; [exact E5|]. split; [exact Hm5|].
  intros a b Ha Hb. rewrite H5, H4, H3, H2, H1.
  destruct (Nat.eq_dec (S a) c) as [Hs|Hs].
  - rewrite Hs, Nat.Div0.mod_same. case_entries.
  - rewrite (Nat.mod_small (S a) c) by lia. case_entries.
Qed.

Lemma symmetric_fill_spec (c : nat) (m : matrix) :
  (1 <= c)%nat -> square_of c m ->
  exists m',
    symmetric_fill m n (Z.of_nat c) = Ok m'
    /\ square_of c m'
    /\ forall a b, (a < c)%nat -> (b < c)%nat ->
        entry m' a b = if Nat.eqb b a then (1 - n)%Q else entry m a b.
Proof.
  intros Hc Hm. unfold symmetric_fill.
  destruct (setitem2_spec c m 0 0 (1 - n)%Q Hm) as (m1 & E1 & Hm1 & H1); try lia.
  destruct (symmetric_loop c (c - 2) 1 (Z.of_nat c - 1) m1)
    as (m2 & E2 & Hm2 & H2); try lia; auto.
  destruct (setitem2_spec c m2 (c - 1) (c - 1) (1 - n)%Q Hm2)
    as (m3 & E3 & Hm3 & H3); try lia.
  replace (Z.of_nat (c - 1)) with (Z.of_nat c - 1) in E3 by lia.
  simpl Z.of_nat in E1.
  rewrite E1; simpl. rewrite E2; simpl.
  exists m3. split; [exact E3|]. split; [exact Hm3|].
  intros a b Ha Hb. rewrite H3, H2, H1. case_entries.
Qed.

End Builders.

Lemma np_eye_ok (n : Z) :
  0 <= n -> np_eye n = ([EvAlloc], Ok (eye_rows (Z.to_nat n))).
Proof.
  intros H. unfold np_eye. destruct (Z.ltb_spec n 0); [lia|]. reflexivity.
Qed.

Lemma np_ones_ok (n : Z) :
  0 <= n -> np_ones n = ([EvAlloc], Ok (ones_rows (Z.to_nat n))).
Proof.
  intros H. unfold np_ones. destruct (Z.ltb_spec n 0); [lia|]. reflexivity.
Qed.

Lemma eye_rows_square (c : nat) : square_of c (eye_rows c).
Proof.
  unfold square_of, eye_rows. split.
  - now rewrite length_map, length_seq.
  - apply Forall_forall. intros r Hr. apply in_map_iff in Hr.
    destruct Hr as (i & <- & _). now rewrite length_map, length_seq.
Qed.

Lemma eye_rows_entry (c a b : nat) :
  (a < c)%nat -> (b < c)%nat ->
  entry (eye_rows c) a b = if Nat.eqb a b then 1%Q else 0%Q.
Proof.
  intros Ha Hb. unfold entry, eye_rows.
  rewrite (nth_indep _ [] (map (fun j => if Nat.eqb 0 j then 1%Q else 0%Q) (seq 0 c)))
    by (now rewrite length_map, length_seq).
  rewrite (map_nth (fun i => map (fun j => if Nat.eqb i j then 1%Q else 0%Q) (seq 0 c))).
  rewrite seq_nth by lia. simpl.
  rewrite (nth_indep _ 0%Q (if Nat.eqb a 0 then 1%Q else 0%Q))
    by (now rewrite length_map, length_seq).
  rewrite (map_nth (fun j => if Nat.eqb a j then 1%Q else 0%Q)).
  now rewrite seq_nth by lia.
Qed.

Lemma ones_scaled_square (c : nat) (k : Q) :
  square_of c (scale k (ones_rows c)).
Proof.
  unfold square_of, scale, ones_rows. split.
  - now rewrite length_map, repeat_length.
  - apply Forall_forall. intros r Hr. apply in_map_iff in Hr.
    destruct Hr as (r0 & <- & Hr0). apply repeat_spec in Hr0. subst r0.
    now rewrite length_map, repeat_length.
Qed.

Lemma nth_repeat_lt {A : Type} (x d : A) (c i : nat) :
  (i < c)%nat -> nth i (repeat x c) d = x.
Proof.
  revert i; induction c as [|c IH]; intros [|i] H; simpl; try lia; auto.
  apply IH. lia.
Qed.

Lemma ones_scaled_entry (c a b : nat) (k : Q) :
  (a < c)%nat -> (b < c)%nat ->
  entry (scale k (ones_rows c)) a b = (k * 1)%Q.
Proof.
  intros Ha Hb. unfold entry, scale, ones_rows.
  rewrite (nth_indep _ [] (map (fun x => (k * x)%Q) []))
    by (now rewrite length_map, repeat_length).
  rewrite (map_nth (map (fun x => (k * x)%Q))).
  rewrite nth_repeat_lt by lia.
  rewrite (nth_indep _ 0%Q (k * 0)%Q) by (now rewrite length_map, repeat_length).
  rewrite (map_nth (fun x => (k * x)%Q)).
  now rewrite nth_repeat_lt by lia.
Qed.

Lemma Qltb_lt (x y : Q) : Qltb x y = true <-> (x < y)%Q.
Proof.
  unfold Qltb. rewrite negb_true_iff. split.
  - intros H. apply Qnot_le_lt. intros Hle.
    apply Qle_bool_iff in Hle. congruence.
  - intros H. destruct (Qle_bool y x) eqn:E; [|reflexivity].
    apply Qle_bool_iff in E. exfalso. apply (Qlt_not_le _ _ H E).
Qed.

Lemma Qltb_ge (x y : Q) : Qltb x y = false <-> (y <= x)%Q.
Proof.
  unfold Qltb. rewrite negb_false_iff. apply Qle_bool_iff.
Qed.

Lemma pairflip_matrix_positive (C : Z) (n : Q) :
  2 <= C -> (0 < n)%Q ->
  exists m,
    pairflip_matrix n C = ([EvAlloc], Ok m)
    /\ square_of (Z.to_nat C) m
    /\ forall a b, (a < Z.to_nat C)%nat -> (b < Z.to_nat C)%nat ->
         entry m a b =
         if Nat.eqb b a then (1 - n)%Q
         else if Nat.eqb b (S a mod Z.to_nat C) then n else 0%Q.
Proof.
  intros HC Hn. unfold pairflip_matrix.
  rewrite np_eye_ok by lia. unfold bind; simpl.
  apply Qltb_lt in Hn. rewrite Hn.
  destruct (pairflip_fill_spec n (Z.to_nat C) (eye_rows (Z.to_nat C)))
    as (m & E & Hm & H); [lia | apply eye_rows_square |].
  rewrite Z2Nat.id in E by lia.
  exists m. unfold lift. rewrite E. simpl. repeat split; try apply Hm.
  intros a b Ha Hb. rewrite H, eye_rows_entry by lia.
  case_entries.
Qed.

Lemma symmetric_matrix_positive (C : Z) (n : Q) :
  2 <= C -> (0 < n)%Q ->
  exists m,
    symmetric_matrix n C = ([EvAlloc], Ok m)
    /\ square_of (Z.to_nat C) m
    /\ forall a b, (a < Z.to_nat C)%nat -> (b < Z.to_nat C)%nat ->
         entry m a b =
         if Nat.eqb b a then (1 - n)%Q else (n / inject_Z (C - 1) * 1)%Q.
Proof.
  intros HC Hn. unfold symmetric_matrix.
  rewrite np_ones_ok by lia. unfold bind; simpl.
  unfold float_div_int. destruct (Z.eqb_spec (C - 1) 0); [lia|]. simpl.
  apply Qltb_lt in Hn. rewrite Hn.
  destruct (symmetric_fill_spec n (Z.to_nat C)
              (scale (n / inject_Z (C - 1)) (ones_rows (Z.to_nat C))))
    as (m & E & Hm & H); [lia | apply ones_scaled_square |].
  rewrite Z2Nat.id in E by lia.
  exists m. rewrite E. simpl. repeat split; try apply Hm.
  intros a b Ha Hb. rewrite H, ones_scaled_entry by lia. reflexivity.
Qed.

(** * The claims on the builders *)

(** C1. For every class count [C >= 2] and noise level [n] in (0,1], the
    pairflip builder returns a [C] by [C] matrix whose entry [(i, i)] is
    [1 - n], whose entry [(i, (i+1) mod C)] is [n] (row [C-1] wraps to
    column 0) and whose other entries are 0; for [C = 3] and [n = 0.5] the
    matrix is [[0.5,0.5,0],[0,0.5,0.5],[0.5,0,0.5]]. *)
Theorem pairflip_matrix_entries (C : Z) (n : Q) :
  2 <= C -> (0 < n)%Q -> (n <= 1)%Q ->
  (exists m,
      pairflip_matrix n C = ([EvAlloc], Ok m)
      /\ square_of (Z.to_nat C) m
      /\ forall i j, 0 <= i < C -> 0 <= j < C ->
           entry m (Z.to_nat i) (Z.to_nat j) =
           if j =? i then (1 - n)%Q
           else if j =? (i + 1) mod C then n else 0%Q)
  /\ pairflip_matrix (1 # 2) 3 =
     ([EvAlloc], Ok [[1 # 2; 1 # 2; 0]; [0; 1 # 2; 1 # 2]; [1 # 2; 0; 1 # 2]]%Q).
Proof.
  intros HC Hn _. split; [|exact pairflip_3_half].
  destruct (pairflip_matrix_positive C n HC Hn) as (m & E & Hm & H).
  exists m. repeat split; try apply Hm; try exact E.
  intros i j Hi Hj. rewrite H by lia.
  assert (Hmod : Z.of_nat (S (Z.to_nat i) mod Z.to_nat C) = (i + 1) mod C).
  { rewrite Nat2Z.inj_mod. f_equal; lia. }
  case_entries.
Qed.

Lemma pairflip_matrix_entries_witness :
  (exists m,
      pairflip_matrix (1 # 4) 4 = ([EvAlloc], Ok m)
      /\ square_of (Z.to_nat 4) m
      /\ forall i j, 0 <= i < 4 -> 0 <= j < 4 ->
           entry m (Z.to_nat i) (Z.to_nat j) =
           if j =? i then (1 - (1 # 4))%Q
           else if j =? (i + 1) mod 4 then (1 # 4)%Q else 0%Q)
  /\ pairflip_matrix (1 # 2) 3 =
     ([EvAlloc], Ok [[1 # 2; 1 # 2; 0]; [0; 1 # 2; 1 # 2]; [1 # 2; 0; 1 # 2]]%Q).
Proof.
  apply (pairflip_matrix_entries 4 (1 # 4)).
  - lia.
  - reflexivity.
  - unfold Qle; simpl; lia.
Defined.

(** ** The symmetric builder in binary64 *)

Lemma b64_square_of_shape (c : nat) (m : Binary64.matrix) :
  Binary64.square_of c m -> Binary64.shape0 m = c /\ Binary64.shape1 m = c.
Proof.
  intros [Hl Hr]. split; [exact Hl|].
  destruct m as [|r m]; simpl in *; [auto|].
  now inversion Hr.
Qed.

Lemma b64_square_of_row (c : nat) (m : Binary64.matrix) (i : nat) :
  Binary64.square_of c m -> (i < c)%nat -> length (nth i m []) = c.
Proof.
  intros [Hl Hr] Hi. rewrite Forall_forall in Hr.
  apply Hr, nth_In. lia.
Qed.

(** [matrix[i, j] = v] on a square array of floats, in range. *)
Lemma b64_setitem2_spec (c : nat) (m : Binary64.matrix) (i j : nat) (v : float) :
  Binary64.square_of c m -> (i < c)%nat -> (j < c)%nat ->
  exists m', Binary64.setitem2 m (Z.of_nat i) (Z.of_nat j) v = Ok m'
             /\ Binary64.square_of c m'
             /\ forall a b, Binary64.entry m' a b =
                            if Nat.eqb a i && Nat.eqb b j then v
                            else Binary64.entry m a b.
Proof.
  intros Hm Hi Hj.
  destruct (b64_square_of_shape _ _ Hm) as [H0 H1].
  pose proof (b64_square_of_row _ _ i Hm Hi) as Hrow.
  unfold Binary64.setitem2. rewrite H0, H1.
  rewrite (norm_index_in_range c i Hi), (norm_index_in_range c j Hj). simpl.
  eexists; split; [reflexivity|]. split.
  - destruct Hm as [Hl Hr]. split.
    + now rewrite update_length.
    + apply Forall_update; [exact Hr|]. now rewrite update_length.
  - intros a b. unfold Binary64.entry.
    rewrite (nth_update i a). destruct Hm as [Hl Hr]. rewrite Hl.
    destruct (Nat.eqb_spec a i) as [->|Hai]; simpl.
    + replace (Nat.ltb i c) with true by (symmetry; apply Nat.ltb_lt; lia).
      rewrite (nth_update j b), Hrow.
      replace (Nat.ltb j c) with true by (symmetry; apply Nat.ltb_lt; lia).
      now rewrite andb_true_r.
    + reflexivity.
Qed.

Lemma b64_symmetric_loop (d : float) (c k : nat) :
  forall (lo hi : Z) (m : Binary64.matrix),
    Z.to_nat (hi - lo) = k -> 0 <= lo -> hi <= Z.of_nat c ->
    Binary64.square_of c m ->
    exists m',
      for_each (py_range lo hi) m (fun m i => Binary64.setitem2 m i i d) = Ok m'
      /\ Binary64.square_of c m'
      /\ forall a b,
          Binary64.entry m' a b =
          if (lo <=? Z.of_nat a) && (Z.of_nat a <? hi) && Nat.eqb b a
          then d else Binary64.entry m a b.
Proof.
  induction k as [|k IH]; intros lo hi m Hk Hlo Hhi Hm.
  - rewrite py_range_nil by lia. exists m. repeat split; try apply Hm.
    intros a b. case_entries.
  - rewrite py_range_cons by lia. simpl.
    destruct (b64_setitem2_spec c m (Z.to_nat lo) (Z.to_nat lo) d Hm)
      as (m1 & E1 & Hm1 & H1); try lia.
    rewrite Z2Nat.id in E1 by lia. rewrite E1.
    destruct (IH (lo + 1) hi m1) as (m' & E' & Hm' & H'); try lia; auto.
    exists m'. split; [exact E'|]. split; [exact Hm'|].
    intros a b. rewrite H', H1. case_entries.
Qed.

Lemma b64_symmetric_fill_spec (n : float) (c : nat) (m : Binary64.matrix) :
  (1 <= c)%nat -> Binary64.square_of c m ->
  exists m',
    Binary64.symmetric_fill m n (Z.of_nat c) = Ok m'
    /\ Binary64.square_of c m'
    /\ forall a b, (a < c)%nat -> (b < c)%nat ->
        Binary64.entry m' a b =
        if Nat.eqb b a then (1 - n)%float else Binary64.entry m a b.
Proof.
  intros Hc Hm. unfold Binary64.symmetric_fill.
  destruct (b64_setitem2_spec c m 0 0 (1 - n)%float Hm)
    as (m1 & E1 & Hm1 & H1); try lia.
  destruct (b64_symmetric_loop (1 - n)%float c (c - 2) 1 (Z.of_nat c - 1) m1)
    as (m2 & E2 & Hm2 & H2); try lia; auto.
  destruct (b64_setitem2_spec c m2 (c - 1) (c - 1) (1 - n)%float Hm2)
    as (m3 & E3 & Hm3 & H3); try lia.
  replace (Z.of_nat (c - 1)) with (Z.of_nat c - 1) in E3 by lia.
  simpl Z.of_nat in E1.
  rewrite E1; simpl. rewrite E2; simpl.
  exists m3. split; [exact E3|]. split; [exact Hm3|].
  intros a b Ha Hb. rewrite H3, H2, H1. case_entries.
Qed.

Lemma b64_ones_scaled_square (c : nat) (k : float) :
  Binary64.square_of c (Binary64.scale k (Binary64.ones_rows c)).
Proof.
  unfold Binary64.square_of, Binary64.scale, Binary64.ones_rows. split.
  - now rewrite length_map, repeat_length.
  - apply Forall_forall. intros r Hr. apply in_map_iff in Hr.
    destruct Hr as (r0 & <- & Hr0). apply repeat_spec in Hr0. subst r0.
    now rewrite length_map, repeat_length.
Qed.

Lemma b64_ones_scaled_entry (c a b : nat) (k : float) :
  (a < c)%nat -> (b < c)%nat ->
  Binary64.entry (Binary64.scale k (Binary64.ones_rows c)) a b = (k * 1)%float.
Proof.
  intros Ha Hb. unfold Binary64.entry, Binary64.scale, Binary64.ones_rows.
  rewrite (nth_indep _ [] (map (fun x => (k * x)%float) []))
    by (now rewrite length_map, repeat_length).
  rewrite (map_nth (map (fun x => (k * x)%float))).
  rewrite nth_repeat_lt by lia.
  rewrite (nth_indep _ 0%float (k * 0)%float)
    by (now rewrite length_map, repeat_length).
  rewrite (map_nth (fun x => (k * x)%float)).
  now rewrite nth_repeat_lt by lia.
Qed.

(** The binary64 builder for [C >= 2] and [n > 0.0]: the diagonal holds the
    rounded [1. - n], every other entry the rounded [n / (C - 1)] times
    [1.0]. *)
Lemma b64_symmetric_matrix_positive (C : Z) (n : float) :
  2 <= C -> (0 <? n)%float = true ->
  exists m,
    Binary64.symmetric_matrix n C = ([EvAlloc], Ok m)
    /\ Binary64.square_of (Z.to_nat C) m
    /\ forall a b, (a < Z.to_nat C)%nat -> (b < Z.to_nat C)%nat ->
         Binary64.entry m a b =
         if Nat.eqb b a then (1 - n)%float
         else (n / Binary64.float_of_int (C - 1) * 1)%float.
Proof.
  intros HC Hn. unfold Binary64.symmetric_matrix, Binary64.np_ones.
  destruct (Z.ltb_spec C 0) as [Hneg|_]; [lia|]. unfold bind; simpl.
  unfold Binary64.float_div_int.
  destruct (Z.eqb_spec (C - 1) 0) as [Hz|_]; [lia|]. simpl.
  rewrite Hn.
  destruct (b64_symmetric_fill_spec n (Z.to_nat C)
              (Binary64.scale (n / Binary64.float_of_int (C - 1))
                              (Binary64.ones_rows (Z.to_nat C))))
    as (m & E & Hm & H); [lia | apply b64_ones_scaled_square |].
  rewrite Z2Nat.id in E by lia.
  exists m. rewrite E. simpl. repeat split; try apply Hm.
  intros a b Ha Hb. rewrite H, b64_ones_scaled_entry by lia. reflexivity.
Qed.

(** [float(k)] on small ints, and at the limit of exactness. *)
Example float_of_int_values :
  Binary64.float_of_int 1 = 1%float
  /\ Binary64.float_of_int 3 = 3%float
  /\ Binary64.float_of_int 9 = 9%float
  /\ Binary64.float_of_int 1000 = 1000%float
  /\ Binary64.float_of_int (-2) = (-2)%float
  /\ Binary64.float_of_int (2 ^ 53) = 9007199254740992%float.
Proof. vm_compute. repeat split. Qed.

(** C2, as amended. For every class count [C >= 2] and noise level [n] in
    (0,1], the symmetric builder returns a [C] by [C] matrix whose diagonal
    entries are [1 - n] and whose other entries are [n / (C - 1)]: over the
    rationals, and in binary64 with the rounded operations of the source.
    For [C = 4] and [n = 0.3] the binary64 matrix has 0.7 on the diagonal
    and the rounded quotient [0.3 / 3] = 0.09999999999999999 elsewhere,
    which is the binary64 number just below 0.1. *)
Theorem symmetric_matrix_entries (C : Z) (n : Q) (x : float) :
  2 <= C -> (0 < n)%Q -> (n <= 1)%Q ->
  (0 <? x)%float = true -> (x <=? 1)%float = true ->
  (exists m,
      symmetric_matrix n C = ([EvAlloc], Ok m)
      /\ square_of (Z.to_nat C) m
      /\ forall i j, 0 <= i < C -> 0 <= j < C ->
           (entry m (Z.to_nat i) (Z.to_nat j) ==
            if j =? i then 1 - n else n / inject_Z (C - 1))%Q)
  /\ (exists m,
         Binary64.symmetric_matrix x C = ([EvAlloc], Ok m)
         /\ Binary64.square_of (Z.to_nat C) m
         /\ forall i j, 0 <= i < C -> 0 <= j < C ->
              Binary64.entry m (Z.to_nat i) (Z.to_nat j) =
              if j =? i then (1 - x)%float
              else (x / Binary64.float_of_int (C - 1) * 1)%float)
  /\ Binary64.symmetric_matrix 0.3 4 =
     ([EvAlloc],
      Ok [[0.7; 0.09999999999999999; 0.09999999999999999; 0.09999999999999999];
          [0.09999999999999999; 0.7; 0.09999999999999999; 0.09999999999999999];
          [0.09999999999999999; 0.09999999999999999; 0.7; 0.09999999999999999];
          [0.09999999999999999; 0.09999999999999999; 0.09999999999999999; 0.7]]%float)
  /\ next_down 0.1 = 0.09999999999999999%float.
Proof.
  intros HC Hn _ Hx _. split; [|split; [|split]].
  - destruct (symmetric_matrix_positive C n HC Hn) as (m & E & Hm & H).
    exists m. repeat split; try apply Hm; try exact E.
    intros i j Hi Hj. rewrite H by lia.
    case_entries; apply Qmult_1_r.
  - destruct (b64_symmetric_matrix_positive C x HC Hx) as (m & E & Hm & H).
    exists m. repeat split; try apply Hm; try exact E.
    intros i j Hi Hj. rewrite H by lia.
    case_entries.
  - vm_compute. reflexivity.
  - vm_compute. reflexivity.
Qed.

Lemma symmetric_matrix_entries_witness :
  (exists m,
      symmetric_matrix (1 # 2) 3 = ([EvAlloc], Ok m)
      /\ square_of (Z.to_nat 3) m
      /\ forall i j, 0 <= i < 3 -> 0 <= j < 3 ->
           (entry m (Z.to_nat i) (Z.to_nat j) ==
            if j =? i then 1 - (1 # 2) else (1 # 2) / inject_Z (3 - 1))%Q)
  /\ (exists m,
         Binary64.symmetric_matrix 0.5 3 = ([EvAlloc], Ok m)
         /\ Binary64.square_of (Z.to_nat 3) m
         /\ forall i j, 0 <= i < 3 -> 0 <= j < 3 ->
              Binary64.entry m (Z.to_nat i) (Z.to_nat j) =
              if j =? i then (1 - 0.5)%float
              else (0.5 / Binary64.float_of_int (3 - 1) * 1)%float)
  /\ Binary64.symmetric_matrix 0.3 4 =
     ([EvAlloc],
      Ok [[0.7; 0.09999999999999999; 0.09999999999999999; 0.09999999999999999];
          [0.09999999999999999; 0.7; 0.09999999999999999; 0.09999999999999999];
          [0.09999999999999999; 0.09999999999999999; 0.7; 0.09999999999999999];
          [0.09999999999999999; 0.09999999999999999; 0.09999999999999999; 0.7]]%float)
  /\ next_down 0.1 = 0.09999999999999999%float.
Proof.
  apply (symmetric_matrix_entries 3 (1 # 2) 0.5%float).
  - lia.
  - reflexivity.
  - unfold Qle; simpl; lia.
  - reflexivity.
  - reflexivity.
Defined.

(** C2 as stated fails in its instance: in binary64 the off-diagonal
    entries for [C = 4] and [n = 0.3] are not 0.1, the quotient [0.3 / 3]
    rounds to the number below it; the diagonal is 0.7. *)
Lemma symmetric_off_diagonal_not_a_tenth :
  exists m,
    Binary64.symmetric_matrix 0.3 4 = ([EvAlloc], Ok m)
    /\ (Binary64.entry m 0 1 =? 0.1)%float = false
    /\ (Binary64.entry m 0 1 <? 0.1)%float = true
    /\ (Binary64.entry m 0 0 =? 0.7)%float = true.
Proof.
  eexists. split; [vm_compute; reflexivity|].
  repeat split; vm_compute; reflexivity.
Qed.

(** ** Row sums *)

Lemma fold_left_Qplus_acc (r : list Q) (a : Q) :
  (fold_left Qplus r a == a + fold_left Qplus r 0)%Q.
Proof.
  revert a; induction r as [|x r IH]; intros a; cbn [fold_left].
  - ring.
  - rewrite (IH (a + x)%Q), (IH (0 + x)%Q). ring.
Qed.

Lemma row_sum_cons (x : Q) (r : list Q) : (row_sum (x :: r) == x + row_sum r)%Q.
Proof.
  unfold row_sum; cbn [fold_left]. rewrite fold_left_Qplus_acc. ring.
Qed.

Lemma row_sum_sumf (g : nat -> Q) (r : list Q) :
  forall s,
    (forall j, (j < length r)%nat -> (nth j r 0 == g (s + j)%nat)%Q) ->
    (row_sum r == sumf g s (length r))%Q.
Proof.
  induction r as [|x r IH]; intros s H.
  - reflexivity.
  - rewrite row_sum_cons. cbn [length sumf].
    rewrite (IH (S s)).
    + specialize (H 0%nat). simpl in H. rewrite Nat.add_0_r in H.
      rewrite H by lia. reflexivity.
    + intros j Hj. specialize (H (S j)). simpl in H.
      rewrite H by lia. now rewrite Nat.add_succ_r.
Qed.

Lemma sumf_ext (f g : nat -> Q) (len : nat) :
  forall s,
    (forall j, (s <= j < s + len)%nat -> (f j == g j)%Q) ->
    (sumf f s len == sumf g s len)%Q.
Proof.
  induction len as [|len IH]; intros s H; cbn [sumf].
  - reflexivity.
  - rewrite (H s) by lia. rewrite (IH (S s)); [reflexivity|].
    intros j Hj. apply H. lia.
Qed.

Lemma sumf_plus (f g : nat -> Q) (len : nat) :
  forall s, (sumf (fun j => f j + g j) s len == sumf f s len + sumf g s len)%Q.
Proof.
  induction len as [|len IH]; intros s; cbn [sumf].
  - ring.
  - rewrite IH. ring.
Qed.

Lemma sumf_const (c : Q) (len : nat) :
  forall s, (sumf (fun _ => c) s len == inject_Z (Z.of_nat len) * c)%Q.
Proof.
  induction len as [|len IH]; intros s.
  - cbn [sumf]. change (inject_Z (Z.of_nat 0)) with 0%Q. ring.
  - cbn [sumf]. rewrite IH.
    rewrite Nat2Z.inj_succ. unfold Z.succ. rewrite inject_Z_plus.
    change (inject_Z 1) with 1%Q. ring.
Qed.

Lemma sumf_point (i : nat) (v : Q) (len : nat) :
  forall s,
    (sumf (point i v) s len ==
     if Nat.leb s i && Nat.ltb i (s + len) then v else 0)%Q.
Proof.
  induction len as [|len IH]; intros s; cbn [sumf].
  - case_entries.
  - rewrite IH. unfold point. case_entries; ring.
Qed.

Lemma row_stochastic_of_entries (c : nat) (m : matrix) (g : nat -> nat -> Q) (tol : Q) :
  square_of c m -> (0 <= tol)%Q ->
  (forall a b, (a < c)%nat -> (b < c)%nat -> (entry m a b == g a b)%Q) ->
  (forall a, (a < c)%nat -> (sumf (g a) 0 c == 1)%Q) ->
  (forall a b, (a < c)%nat -> (b < c)%nat -> (0 <= g a b)%Q) ->
  row_stochastic tol m.
Proof.
  intros Hm Htol He Hs Hp r Hr.
  destruct (In_nth _ _ [] Hr) as (a & Ha & <-).
  destruct Hm as [Hl Hrows]. rewrite Hl in Ha.
  assert (Hlen : length (nth a m []) = c)
    by (apply (square_of_row c m a); [split; auto | exact Ha]).
  split.
  - rewrite (row_sum_sumf (g a) _ 0%nat).
    + rewrite Hlen, Hs by exact Ha.
      setoid_replace (1 - 1)%Q with 0%Q by lra. exact Htol.
    + intros j Hj. simpl. apply (He a j); lia.
  - apply Forall_forall. intros x Hx.
    destruct (In_nth _ _ 0%Q Hx) as (b & Hb & <-).
    rewrite Hlen in Hb. fold (entry m a b).
    rewrite (He a b) by lia. apply Hp; lia.
Qed.

Lemma inject_Z_pos (k : Z) : 0 < k -> (0 < inject_Z k)%Q.
Proof.
  intros H. change 0%Q with (inject_Z 0). now rewrite <- Zlt_Qlt.
Qed.

Lemma pairflip_row_sum (n : Q) (c a : nat) :
  (2 <= c)%nat -> (a < c)%nat ->
  (sumf (fun b => if Nat.eqb b a then 1 - n
                  else if Nat.eqb b (S a mod c) then n else 0) 0 c == 1)%Q.
Proof.
  intros Hc Ha.
  assert (Hk : (S a mod c < c)%nat /\ (S a mod c)%nat <> a).
  { destruct (Nat.eq_dec (S a) c) as [Hs|Hs].
    - rewrite Hs, Nat.Div0.mod_same. lia.
    - rewrite Nat.mod_small by lia. lia. }
  destruct Hk as [Hk1 Hk2].
  rewrite (sumf_ext _ (fun j => point a (1 - n) j + point (S a mod c) n j)%Q).
  - rewrite sumf_plus, !sumf_point. case_entries. ring.
  - intros j _. unfold point. case_entries; ring.
Qed.

Lemma identity_row_sum (c a : nat) :
  (a < c)%nat -> (sumf (fun b => if Nat.eqb a b then 1 else 0) 0 c == 1)%Q.
Proof.
  intros Ha. rewrite (sumf_ext _ (point a 1)).
  - rewrite sumf_point. case_entries.
  - intros j _. unfold point. case_entries.
Qed.

Lemma symmetric_row_sum (n : Q) (C : Z) (a : nat) :
  2 <= C -> (a < Z.to_nat C)%nat ->
  (sumf (fun b => if Nat.eqb b a then 1 - n else n / inject_Z (C - 1) * 1)
        0 (Z.to_nat C) == 1)%Q.
Proof.
  intros HC Ha.
  pose proof (inject_Z_pos (C - 1) ltac:(lia)) as Hpos.
  set (c0 := (n / inject_Z (C - 1))%Q).
  rewrite (sumf_ext _ (fun j => c0 + point a (1 - n - c0) j)%Q).
  - rewrite sumf_plus, sumf_const, sumf_point.
    rewrite Z2Nat.id by lia.
    replace C with ((C - 1) + 1) at 1 by lia. rewrite inject_Z_plus.
    change (inject_Z 1) with 1%Q.
    replace (Nat.leb 0 a && Nat.ltb a (0 + Z.to_nat C)) with true
      by (symmetry; apply andb_true_iff; split;
          [apply Nat.leb_le | apply Nat.ltb_lt]; lia).
    unfold c0. field. lra.
  - intros j _. unfold point. case_entries; ring.
Qed.

Lemma pairflip_matrix_zero (C : Z) (n : Q) :
  0 <= C -> (n <= 0)%Q ->
  pairflip_matrix n C = ([EvAlloc], Ok (eye_rows (Z.to_nat C))).
Proof.
  intros HC Hn. unfold pairflip_matrix. rewrite np_eye_ok by lia.
  unfold bind; simpl. apply Qltb_ge in Hn. now rewrite Hn.
Qed.

(** C3, as amended. For pairflip with noise level in [0,1] and for symmetric
    with noise level in (0,1], and every class count [C >= 2], each row of
    the built matrix sums to 1 within 1e-6 (exactly, in fact) and has no
    negative entry. *)
Theorem transition_matrix_row_stochastic (t : topology) (C : Z) (n : Q) :
  2 <= C -> (0 <= n)%Q -> (n <= 1)%Q -> (t = Symmetric -> (0 < n)%Q) ->
  exists m,
    transition_matrix t n C = ([EvAlloc], Ok m)
    /\ row_stochastic (1 # 1000000) m.
Proof.
  intros HC Hn0 Hn1 Hsym. destruct t; simpl.
  - destruct (Qlt_le_dec 0 n) as [Hpos|Hzero].
    + destruct (pairflip_matrix_positive C n HC Hpos) as (m & E & Hm & H).
      exists m. split; [exact E|].
      apply (row_stochastic_of_entries (Z.to_nat C) m
               (fun a b => if Nat.eqb b a then (1 - n)%Q
                           else if Nat.eqb b (S a mod Z.to_nat C) then n else 0%Q));
        auto.
      * discriminate.
      * intros a b Ha Hb. now rewrite H.
      * intros a Ha. apply pairflip_row_sum; lia.
      * intros a b _ _. case_entries; lra.
    + rewrite pairflip_matrix_zero by (auto; lia).
      eexists. split; [reflexivity|].
      apply (row_stochastic_of_entries (Z.to_nat C) _
               (fun a b => if Nat.eqb a b then 1%Q else 0%Q)).
      * apply eye_rows_square.
      * discriminate.
      * intros a b Ha Hb. now rewrite eye_rows_entry.
      * intros a Ha. now apply identity_row_sum.
      * intros a b _ _. case_entries; lra.
  - specialize (Hsym eq_refl).
    destruct (symmetric_matrix_positive C n HC Hsym) as (m & E & Hm & H).
    exists m. split; [exact E|].
    apply (row_stochastic_of_entries (Z.to_nat C) m
             (fun a b => if Nat.eqb b a then (1 - n)%Q
                         else (n / inject_Z (C - 1) * 1)%Q)); auto.
    + discriminate.
    + intros a b Ha Hb. now rewrite H.
    + intros a Ha. now apply symmetric_row_sum.
    + intros a b _ _. case_entries; [lra|].
      pose proof (inject_Z_pos (C - 1) ltac:(lia)) as Hpos.
      rewrite Qmult_1_r. apply Qle_shift_div_l; lra.
Qed.

Lemma transition_matrix_row_stochastic_witness :
  exists m,
    transition_matrix Symmetric (1 # 2) 3 = ([EvAlloc], Ok m)
    /\ row_stochastic (1 # 1000000) m.
Proof.
  apply (transition_matrix_row_stochastic Symmetric 3 (1 # 2)).
  - lia.
  - unfold Qle; simpl; lia.
  - unfold Qle; simpl; lia.
  - intros _. reflexivity.
Defined.

(** C3 as stated fails for the symmetric builder at noise level 0: the
    matrix is [0 / (C - 1)] times the matrix of ones and the diagonal is
    only written under [n > 0.0], so every row sums to 0. *)
Lemma symmetric_zero_noise_not_stochastic :
  exists m,
    transition_matrix Symmetric 0 2 = ([EvAlloc], Ok m)
    /\ (forall r, In r m -> (row_sum r == 0)%Q)
    /\ ~ row_stochastic (1 # 1000000) m.
Proof.
  eexists. split; [vm_compute; reflexivity|]. split.
  - intros r [<-|[<-|[]]]; vm_compute; reflexivity.
  - intros H. destruct (H [0 # 1; 0 # 1]%Q) as [Hs _]; [now left|].
    vm_compute in Hs. apply Hs. reflexivity.
Qed.

(** * The orchestrator *)

Lemma bind_ret_l {A B : Type} (a : A) (k : A -> M B) : bind (ret a) k = k a.
Proof. unfold bind, ret. now destruct (k a). Qed.

Lemma bind_assoc {A B C : Type} (m : M A) (k : A -> M B) (h : B -> M C) :
  bind (bind m k) h = bind m (fun a => bind (k a) h).
Proof.
  destruct m as [l [a|e]]; simpl; [|reflexivity].
  destruct (k a) as [l1 [b|e1]]; simpl; [|reflexivity].
  destruct (h b) as [l2 r]. now rewrite app_assoc.
Qed.

Section Orchestrator.

Variable G : Generator.
Variable os_state : gen_state G.

(** Both functions are their builder followed by [sample_and_check]. *)
Lemma noisify_pairflip_builder y noise rs C :
  noisify_pairflip G os_state y noise rs C =
  (m <- pairflip_matrix noise C ;; sample_and_check G os_state y noise rs m).
Proof.
  unfold noisify_pairflip, pairflip_matrix, sample_and_check, np_eye.
  destruct (C <? 0); [reflexivity|].
  destruct (Qltb 0 noise); [|reflexivity].
  unfold lift. cbn [bind tell ret].
  match goal with |- context [pairflip_fill ?m0 noise C] =>
    destruct (pairflip_fill m0 noise C) end; [|reflexivity].
  match goal with |- context [multiclass_noisify ?a ?b ?c ?d ?e] =>
    destruct (multiclass_noisify a b c d e) as [l1 [y'|e1]] end; [|reflexivity].
  cbn [bind]. destruct (py_assert _) as [l2 [[]|e2]]; reflexivity.
Qed.

Lemma noisify_symmetric_builder y noise rs C :
  noisify_multiclass_symmetric G os_state y noise rs C =
  (m <- symmetric_matrix noise C ;; sample_and_check G os_state y noise rs m).
Proof.
  unfold noisify_multiclass_symmetric, symmetric_matrix, sample_and_check, np_ones.
  destruct (C <? 0); [reflexivity|].
  unfold lift. destruct (float_div_int noise (C - 1)) as [c|e]; [|reflexivity].
  destruct (Qltb 0 noise); [|reflexivity].
  cbn [bind tell ret].
  match goal with |- context [symmetric_fill ?m0 noise C] =>
    destruct (symmetric_fill m0 noise C) end; [|reflexivity].
  match goal with |- context [multiclass_noisify ?a ?b ?c ?d ?e] =>
    destruct (multiclass_noisify a b c d e) as [l1 [y'|e1]] end; [|reflexivity].
  cbn [bind]. destruct (py_assert _) as [l2 [[]|e2]]; reflexivity.
Qed.

Lemma noisify_builder (t : topology) C y noise rs :
  noisify G os_state C y (Some (topology_name t)) noise rs =
  (m <- transition_matrix t noise C ;; sample_and_check G os_state y noise rs m).
Proof.
  destruct t; unfold noisify; simpl.
  - apply noisify_pairflip_builder.
  - apply noisify_symmetric_builder.
Qed.

End Orchestrator.

Lemma symmetric_matrix_zero (C : Z) (n : Q) :
  0 <= C -> C <> 1 -> (n <= 0)%Q ->
  symmetric_matrix n C =
  ([EvAlloc],
   Ok (scale (n / inject_Z (C - 1)) (ones_rows (Z.to_nat C)))).
Proof.
  intros HC H1 Hn. unfold symmetric_matrix. rewrite np_ones_ok by lia.
  unfold float_div_int. destruct (Z.eqb_spec (C - 1) 0); [lia|].
  apply Qltb_ge in Hn. now rewrite Hn.
Qed.

Lemma sample_and_check_zero G os y n rs m :
  (n <= 0)%Q -> sample_and_check G os y n rs m = ret (y, None).
Proof.
  intros Hn. unfold sample_and_check. apply Qltb_ge in Hn. now rewrite Hn.
Qed.

(** C4. For every label array and both topologies (class count [C >= 2]),
    at noise level 0 the orchestrator returns the input labels and no
    realized rate, and the sampler is never entered: the only step is the
    allocation of the matrix. *)
Theorem noisify_zero_noise (G : Generator) (os : gen_state G) (C : Z)
        (y : labels) (t : topology) (n : Q) (rs : option Z) :
  2 <= C -> (n == 0)%Q ->
  noisify G os C y (Some (topology_name t)) n rs = ([EvAlloc], Ok (y, None))
  /\ ~ In EvSampler (log_of (noisify G os C y (Some (topology_name t)) n rs))
  /\ ~ In EvDraw (log_of (noisify G os C y (Some (topology_name t)) n rs)).
Proof.
  intros HC Hn.
  assert (Hle : (n <= 0)%Q) by (rewrite Hn; apply Qle_refl).
  assert (E : noisify G os C y (Some (topology_name t)) n rs
              = ([EvAlloc], Ok (y, None))).
  { rewrite noisify_builder. destruct t; simpl transition_matrix.
    - rewrite pairflip_matrix_zero by (auto; lia).
      cbn [bind]. now rewrite sample_and_check_zero.
    - rewrite symmetric_matrix_zero by (auto; lia).
      cbn [bind]. now rewrite sample_and_check_zero. }
  rewrite E. repeat split; simpl; intros [H|[]]; discriminate.
Qed.

Lemma noisify_zero_noise_witness :
  noisify lcg_generator 7 10 (Arr2 [[3]; [1]; [4]]) (Some (topology_name Symmetric)) 0 (Some 0)
  = ([EvAlloc], Ok (Arr2 [[3]; [1]; [4]], None))
  /\ ~ In EvSampler
       (log_of (noisify lcg_generator 7 10 (Arr2 [[3]; [1]; [4]])
                        (Some (topology_name Symmetric)) 0 (Some 0)))
  /\ ~ In EvDraw
       (log_of (noisify lcg_generator 7 10 (Arr2 [[3]; [1]; [4]])
                        (Some (topology_name Symmetric)) 0 (Some 0))).
Proof.
  apply (noisify_zero_noise lcg_generator 7 10 (Arr2 [[3]; [1]; [4]]) Symmetric 0 (Some 0)).
  - lia.
  - reflexivity.
Defined.

(** C7. For every topology value other than "pairflip" and "symmetric"
    (any other string, or no value) the orchestrator raises the
    unsupported-topology error at once: no matrix is built, the sampler is
    not entered and no labels are returned. *)
Theorem noisify_unsupported (G : Generator) (os : gen_state G) (C : Z)
        (y : labels) (noise_type : option string) (n : Q) (rs : option Z) :
  noise_type <> Some "pairflip"%string ->
  noise_type <> Some "symmetric"%string ->
  noisify G os C y noise_type n rs = ([], Raise unsupported_noise_type).
Proof.
  intros Hp Hs. unfold noisify, str_eq.
  destruct noise_type as [s|]; [|reflexivity].
  destruct (String.eqb_spec s "pairflip") as [->|_]; [congruence|].
  destruct (String.eqb_spec s "symmetric") as [->|_]; [congruence|].
  reflexivity.
Qed.

Lemma noisify_unsupported_witness :
  noisify lcg_generator 0 10 (Arr2 [[3]; [1]; [4]]) (Some "gaussian"%string)
          (1 # 5) (Some 0)
  = ([], Raise unsupported_noise_type).
Proof.
  apply (noisify_unsupported lcg_generator 0 10 (Arr2 [[3]; [1]; [4]])
                             (Some "gaussian"%string) (1 # 5) (Some 0));
    discriminate.
Defined.

(** * The sampler *)

(** C5. With an integer seed the sampler builds its generator from that
    seed alone: two runs on the same labels, matrix and seed give the same
    result whatever state the operating system would have supplied, and so
    do two runs of the orchestrator on the same configuration. *)
Theorem multiclass_noisify_deterministic (G : Generator) (os1 os2 : gen_state G)
        (y : labels) (m : matrix) (seed : Z) :
  multiclass_noisify G os1 y m (Some seed) = multiclass_noisify G os2 y m (Some seed)
  /\ forall C noise_type n,
      noisify G os1 C y noise_type n (Some seed)
      = noisify G os2 C y noise_type n (Some seed).
Proof.
  split; [reflexivity|]. intros C noise_type n. reflexivity.
Qed.

(** Without a seed the result does depend on that state. *)
Remark unseeded_runs_differ :
  outcome (multiclass_noisify lcg_generator 0 (Arr2 [[0]]) [[1 # 2; 1 # 2]; [1 # 2; 1 # 2]]%Q None)
  <> outcome (multiclass_noisify lcg_generator 1 (Arr2 [[0]]) [[1 # 2; 1 # 2]; [1 # 2; 1 # 2]]%Q None).
Proof. vm_compute. discriminate. Qed.

(** ** The four checks decide the four preconditions *)

Lemma fold_max_lt (xs : list Z) (x b : Z) :
  fold_left Z.max xs x < b <-> x < b /\ Forall (fun l => l < b) xs.
Proof.
  revert x; induction xs as [|h t IH]; intros x; simpl.
  - split; [intros H; split; auto | intros [H _]; exact H].
  - rewrite IH. split.
    + intros [H1 H2]. repeat split; try constructor; auto; lia.
    + intros [H1 H2]. inversion H2; subst. split; auto. lia.
Qed.

Lemma np_max_lt (y : labels) (b : Z) :
  flat y <> [] ->
  exists mx, np_max y = Ok mx /\ (mx < b <-> Forall (fun l => l < b) (flat y)).
Proof.
  intros H. unfold np_max. destruct (flat y) as [|x xs]; [congruence|].
  eexists. split; [reflexivity|]. rewrite fold_max_lt. split.
  - intros [H1 H2]. now constructor.
  - intros H'. now inversion H'.
Qed.

Lemma all_almost_equal_ones (rs : list (list Q)) :
  all_almost_equal (map (fun r => fold_left Qplus r 0%Q) rs)
                   (repeat 1%Q (length rs)) = true
  <-> Forall (fun r => (Qabs (1 - row_sum r) < almost_tol)%Q) rs.
Proof.
  induction rs as [|r rs IH]; simpl.
  - split; auto.
  - rewrite andb_true_iff, IH, Qltb_lt. split.
    + intros [H1 H2]. now constructor.
    + intros H. now inversion H.
Qed.

Lemma all_nonneg_iff (m : matrix) : all_nonneg m = true <-> entries_nonneg m.
Proof.
  unfold all_nonneg, entries_nonneg.
  rewrite forallb_forall, Forall_forall. split; intros H r Hr.
  - specialize (H r Hr). rewrite forallb_forall in H.
    apply Forall_forall. intros x Hx. apply Qle_bool_iff. auto.
  - apply forallb_forall. intros x Hx. apply Qle_bool_iff.
    specialize (H r Hr). rewrite Forall_forall in H. auto.
Qed.

(** ** Errors of the sampling loop *)

Lemma no_assertion_neq {A : Type} (r : result A) :
  no_assertion r -> r <> Raise AssertionError.
Proof. intros H E. rewrite E in H. exact H. Qed.

Lemma norm_index_no_assertion dim i : no_assertion (norm_index dim i).
Proof.
  unfold norm_index.
  destruct (_ && _); [exact I|]. destruct (_ && _); exact I.
Qed.

Lemma matrix_rows_no_assertion m i : no_assertion (matrix_rows m i).
Proof.
  destruct i as [i|r]; simpl.
  - pose proof (norm_index_no_assertion (shape0 m) i) as H.
    destruct (norm_index (shape0 m) i); simpl; [exact I | exact H].
  - assert (H : forall acc,
               no_assertion
                 (for_each r acc
                    (fun acc i => i' <~ norm_index (shape0 m) i ;;
                                  Ok (acc ++ [nth i' m []])))).
    { induction r as [|i r IH]; intros acc; simpl; [exact I|].
      pose proof (norm_index_no_assertion (shape0 m) i) as H.
      destruct (norm_index (shape0 m) i); simpl; [apply IH | exact H]. }
    specialize (H []).
    destruct (for_each r [] _); simpl; [exact I | exact H].
Qed.

Lemma first_item_no_assertion a : no_assertion (first_item a).
Proof.
  destruct a as [[|x r]|[|r rows]]; exact I.
Qed.

Lemma labels_setitem_no_assertion y idx v : no_assertion (labels_setitem y idx v).
Proof.
  unfold labels_setitem.
  destruct y as [xs|rows]; destruct v as [|j [|j' v]]; try exact I;
    destruct (Nat.eqb _ _); exact I.
Qed.

Section SamplerErrors.

Variable G : Generator.
Variable os_state : gen_state G.

Lemma multinomial_no_assertion st p : no_assertion (multinomial_1_1 G st p).
Proof.
  unfold multinomial_1_1. destruct p as [x|p]; [exact I|].
  destruct (gen_choice G st p) as [[j st']|]; exact I.
Qed.

Lemma RandomState_no_assertion rs : no_assertion (RandomState G os_state rs).
Proof.
  unfold RandomState. destruct rs as [seed|]; [|exact I].
  destruct (_ && _); exact I.
Qed.

Lemma noisify_step_no_assertion y m s idx :
  no_assertion (outcome (noisify_step G y m s idx)).
Proof.
  unfold noisify_step, lift. destruct s as [new_y flipper].
  pose proof (matrix_rows_no_assertion m (labels_getitem y idx)) as H1.
  destruct (matrix_rows m (labels_getitem y idx)) as [rows|e]; [|exact H1].
  cbn [bind]. pose proof (first_item_no_assertion rows) as H2.
  destruct (first_item rows) as [pvals|e]; [|exact H2].
  cbn [bind tell]. pose proof (multinomial_no_assertion flipper pvals) as H3.
  destruct (multinomial_1_1 G flipper pvals) as [[samples flipper']|e]; [|exact H3].
  cbn [bind].
  pose proof (labels_setitem_no_assertion new_y idx (where_eq_1 (nth 0 samples [])))
    as H4.
  destruct (labels_setitem new_y idx (where_eq_1 (nth 0 samples []))); [|exact H4].
  exact I.
Qed.

Lemma for_eachM_no_assertion {A S : Type} (body : S -> A -> M S) (xs : list A) :
  (forall s x, no_assertion (outcome (body s x))) ->
  forall s, no_assertion (outcome (for_eachM xs s body)).
Proof.
  intros Hb. induction xs as [|x xs IH]; intros s; simpl; [exact I|].
  specialize (Hb s x). destruct (body s x) as [l [s'|e]]; [|exact Hb].
  cbn [bind]. specialize (IH s').
  destruct (for_eachM xs s' body) as [l' r]. exact IH.
Qed.

Lemma draw_all_no_assertion y m rs : no_assertion (outcome (draw_all G os_state y m rs)).
Proof.
  unfold draw_all, lift.
  pose proof (RandomState_no_assertion rs) as H1.
  destruct (RandomState G os_state rs) as [flipper|e]; [|exact H1].
  cbn [bind].
  pose proof (for_eachM_no_assertion (noisify_step G y m)
                (seq 0 (labels_shape0 y)) (noisify_step_no_assertion y m)
                (y, flipper)) as H2.
  destruct (for_eachM _ _ _) as [l [s|e]]; [exact I | exact H2].
Qed.

Lemma multiclass_noisify_checked y m rs mx :
  np_max y = Ok mx ->
  multiclass_noisify G os_state y m rs =
  if checks mx m then (tell EvSampler ;;; draw_all G os_state y m rs)
  else ([EvSampler], Raise AssertionError).
Proof.
  intros Hmx. unfold multiclass_noisify, checks, draw_all,
                assert_array_almost_equal.
  destruct (Nat.eqb (shape0 m) (shape1 m)); [|reflexivity].
  rewrite Hmx. cbn [bind tell py_assert ret lift app andb].
  destruct (mx <? Z.of_nat (shape0 m)); [|reflexivity].
  cbn [bind tell py_assert ret lift app andb].
  destruct (all_almost_equal _ _); [|reflexivity].
  cbn [bind tell py_assert ret lift app andb].
  destruct (all_nonneg m); [|reflexivity].
  cbn [bind tell py_assert ret lift app andb].
  destruct (RandomState G os_state rs); [|reflexivity].
  destruct (for_eachM _ _ _) as [l [s|e]]; reflexivity.
Qed.

Lemma checks_iff y m mx :
  np_max y = Ok mx -> flat y <> [] ->
  checks mx m = true <-> preconditions y m.
Proof.
  intros Hmx Hy. unfold checks, preconditions.
  destruct (np_max_lt y (Z.of_nat (shape0 m)) Hy) as (mx' & E & Hlt).
  rewrite Hmx in E. injection E as <-.
  rewrite !andb_true_iff, Nat.eqb_eq, Z.ltb_lt, Hlt, all_nonneg_iff.
  unfold matrix_is_square, labels_below_rows, rows_sum_to_one, row_sums.
  split.
  - intros (((H1 & H2) & H3) & H4). repeat split; auto.
    rewrite <- H1 in H3. now apply all_almost_equal_ones.
  - intros (H1 & H2 & H3 & H4). repeat split; auto.
    rewrite <- H1. now apply all_almost_equal_ones.
Qed.

End SamplerErrors.

Lemma outcome_tell_then {A : Type} (e : event) (k : M A) :
  outcome (tell e ;;; k) = outcome k.
Proof. unfold tell, bind, outcome. now destruct k. Qed.

(** When a precondition is violated the sampler stops at the failing
    assertion, before the generator is built or used; when all four hold it
    goes on to the draws. *)
Lemma multiclass_noisify_rejects (G : Generator) (os : gen_state G)
      (y : labels) (m : matrix) (rs : option Z) :
  flat y <> [] -> ~ preconditions y m ->
  multiclass_noisify G os y m rs = ([EvSampler], Raise AssertionError).
Proof.
  intros Hy Hp.
  destruct (np_max_lt y 0 Hy) as (mx & Hmx & _).
  rewrite (multiclass_noisify_checked G os y m rs mx Hmx).
  destruct (checks mx m) eqn:E; [|reflexivity].
  exfalso. apply Hp. now apply (checks_iff y m mx Hmx Hy).
Qed.

Lemma multiclass_noisify_accepts (G : Generator) (os : gen_state G)
      (y : labels) (m : matrix) (rs : option Z) :
  flat y <> [] -> preconditions y m ->
  multiclass_noisify G os y m rs = (tell EvSampler ;;; draw_all G os y m rs).
Proof.
  intros Hy Hp.
  destruct (np_max_lt y 0 Hy) as (mx & Hmx & _).
  rewrite (multiclass_noisify_checked G os y m rs mx Hmx).
  apply (checks_iff y m mx Hmx Hy) in Hp. now rewrite Hp.
Qed.

(** C6. On a non-empty label array the sampler fails its validation (an
    [AssertionError]) exactly when one of the four preconditions is
    violated: the matrix is square, every label is below the number of rows,
    every row sums to 1 within the tolerance, all entries are >= 0.  It then
    fails before any draw: the only step on record is the entry into the
    sampler. *)
Theorem multiclass_noisify_validation (G : Generator) (os : gen_state G)
        (y : labels) (m : matrix) (rs : option Z) :
  flat y <> [] ->
  (outcome (multiclass_noisify G os y m rs) = Raise AssertionError
   <-> ~ preconditions y m)
  /\ (~ preconditions y m ->
      multiclass_noisify G os y m rs = ([EvSampler], Raise AssertionError)).
Proof.
  intros Hy. split; [split|].
  - intros H Hp.
    rewrite (multiclass_noisify_accepts G os y m rs Hy Hp) in H.
    rewrite outcome_tell_then in H.
    revert H. apply no_assertion_neq, draw_all_no_assertion.
  - intros Hp. now rewrite (multiclass_noisify_rejects G os y m rs Hy Hp).
  - apply multiclass_noisify_rejects. exact Hy.
Qed.

Lemma multiclass_noisify_validation_witness :
  (outcome (multiclass_noisify lcg_generator 0 (Arr2 [[0]; [2]])
              [[1 # 2; 1 # 2]; [1 # 2; 1 # 2]]%Q (Some 0)) = Raise AssertionError
   <-> ~ preconditions (Arr2 [[0]; [2]]) [[1 # 2; 1 # 2]; [1 # 2; 1 # 2]]%Q)
  /\ (~ preconditions (Arr2 [[0]; [2]]) [[1 # 2; 1 # 2]; [1 # 2; 1 # 2]]%Q ->
      multiclass_noisify lcg_generator 0 (Arr2 [[0]; [2]])
        [[1 # 2; 1 # 2]; [1 # 2; 1 # 2]]%Q (Some 0)
      = ([EvSampler], Raise AssertionError)).
Proof.
  apply (multiclass_noisify_validation lcg_generator 0 (Arr2 [[0]; [2]])
           [[1 # 2; 1 # 2]; [1 # 2; 1 # 2]]%Q (Some 0)).
  simpl. discriminate.
Defined.

(** On an empty label array [np.max] itself raises, after the first check
    and before the others. *)
Remark multiclass_noisify_empty (G : Generator) (os : gen_state G)
       (m : matrix) (rs : option Z) :
  shape0 m = shape1 m ->
  multiclass_noisify G os (Arr2 []) m rs = ([EvSampler], Raise zero_size_max).
Proof.
  intros H. unfold multiclass_noisify.
  apply Nat.eqb_eq in H. rewrite H. reflexivity.
Qed.

(** ** One-dimensional label arrays *)

Section FlatLabels.

Variable G : Generator.
Variable os_state : gen_state G.

(** With a scalar label, [matrix[i, :][0]] is a float, and the draw does
    not accept it: no step of the loop succeeds. *)
Lemma noisify_step_flat xs m s idx :
  is_ok (outcome (noisify_step G (Arr1 xs) m s idx)) = false.
Proof.
  unfold noisify_step, lift. destruct s as [new_y flipper]. simpl labels_getitem.
  simpl matrix_rows.
  destruct (norm_index (shape0 m) (nth idx xs 0)) as [i'|e]; [|reflexivity].
  simpl rbind. destruct (nth i' m []) as [|x r]; reflexivity.
Qed.

Lemma multiclass_noisify_flat_never_ok xs m rs :
  is_ok (outcome (multiclass_noisify G os_state (Arr1 xs) m rs)) = false.
Proof.
  destruct xs as [|x xs].
  - unfold multiclass_noisify.
    destruct (Nat.eqb (shape0 m) (shape1 m)); reflexivity.
  - rewrite (multiclass_noisify_checked G os_state (Arr1 (x :: xs)) m rs
               (fold_left Z.max xs x) eq_refl).
    destruct (checks _ m); [|reflexivity].
    rewrite outcome_tell_then. unfold draw_all, lift.
    destruct (RandomState G os_state rs) as [flipper|e]; [|reflexivity].
    cbn [bind labels_shape0 length seq for_eachM].
    pose proof (noisify_step_flat (x :: xs) m (Arr1 (x :: xs), flipper) 0) as H.
    destruct (noisify_step G (Arr1 (x :: xs)) m (Arr1 (x :: xs), flipper) 0)
      as [l [s|e]]; [discriminate|reflexivity].
Qed.

End FlatLabels.

Lemma row_sum_nonempty (r : list Q) :
  (Qabs (1 - row_sum r) < almost_tol)%Q -> r <> [].
Proof.
  intros H ->. vm_compute in H. discriminate.
Qed.

(** C10. For every flat one-dimensional label array within the data model
    (non-empty, labels >= 0) that satisfies the four preconditions, and a
    seed the generator accepts, [matrix[i, :][0]] is the single float
    [matrix[i, 0]] and not row [i]; the first draw raises [TypeError] and no
    noisy array is returned. *)
Theorem multiclass_noisify_flat_labels (G : Generator) (os : gen_state G)
        (xs : list Z) (m : matrix) (rs : option Z) :
  xs <> [] ->
  preconditions (Arr1 xs) m ->
  Forall (fun l => 0 <= l) xs ->
  is_ok (RandomState G os rs) = true ->
  multiclass_noisify G os (Arr1 xs) m rs = ([EvSampler; EvDraw], Raise TypeError)
  /\ (matrix_rows m (labels_getitem (Arr1 xs) 0) = Ok (F1 (nth (Z.to_nat (nth 0 xs 0)) m []))
      /\ first_item (F1 (nth (Z.to_nat (nth 0 xs 0)) m []))
         = Ok (FScalar (entry m (Z.to_nat (nth 0 xs 0)) 0)))
  /\ forall y', outcome (multiclass_noisify G os (Arr1 xs) m rs) <> Ok y'.
Proof.
  intros Hxs Hpre Hnn Hseed.
  destruct xs as [|x xs]; [congruence|]. clear Hxs.
  assert (Hchk : checks (fold_left Z.max xs x) m = true).
  { apply (checks_iff (Arr1 (x :: xs)) m); auto. simpl. discriminate. }
  destruct Hpre as (Hsq & Hlab & Hsum & Hpos).
  inversion Hlab as [|? ? Hx _]; subst. inversion Hnn as [|? ? Hx0 _]; subst.
  assert (Hidx : norm_index (shape0 m) x = Ok (Z.to_nat x)).
  { rewrite <- (Z2Nat.id x) at 1 by lia. apply norm_index_in_range. lia. }
  assert (Hrow : nth (Z.to_nat x) m [] <> []).
  { apply row_sum_nonempty. unfold rows_sum_to_one in Hsum.
    rewrite Forall_forall in Hsum. apply Hsum, nth_In. unfold shape0 in Hx. lia. }
  assert (E : multiclass_noisify G os (Arr1 (x :: xs)) m rs
              = ([EvSampler; EvDraw], Raise TypeError)).
  { rewrite (multiclass_noisify_checked G os (Arr1 (x :: xs)) m rs
               (fold_left Z.max xs x) eq_refl), Hchk.
    unfold draw_all, lift.
    destruct (RandomState G os rs) as [flipper|e]; [|discriminate].
    cbn [bind tell labels_shape0 length seq for_eachM noisify_step labels_getitem
         nth matrix_rows].
    rewrite Hidx. cbn [rbind bind].
    destruct (nth (Z.to_nat x) m []) as [|p r]; [congruence|]. reflexivity. }
  split; [exact E|]. split.
  - simpl. rewrite Hidx. simpl. split; [reflexivity|].
    unfold entry. destruct (nth (Z.to_nat x) m []) as [|p r]; [congruence|].
    reflexivity.
  - intros y'. rewrite E. discriminate.
Qed.

Lemma multiclass_noisify_flat_labels_witness :
  multiclass_noisify lcg_generator 0 (Arr1 [0; 1; 1])
    [[1 # 2; 1 # 2]; [1 # 4; 3 # 4]]%Q (Some 0)
  = ([EvSampler; EvDraw], Raise TypeError)
  /\ (matrix_rows [[1 # 2; 1 # 2]; [1 # 4; 3 # 4]]%Q (labels_getitem (Arr1 [0; 1; 1]) 0)
      = Ok (F1 (nth (Z.to_nat (nth 0 [0; 1; 1] 0)) [[1 # 2; 1 # 2]; [1 # 4; 3 # 4]]%Q []))
      /\ first_item (F1 (nth (Z.to_nat (nth 0 [0; 1; 1] 0))
                              [[1 # 2; 1 # 2]; [1 # 4; 3 # 4]]%Q []))
         = Ok (FScalar (entry [[1 # 2; 1 # 2]; [1 # 4; 3 # 4]]%Q
                              (Z.to_nat (nth 0 [0; 1; 1] 0)) 0)))
  /\ forall y',
      outcome (multiclass_noisify lcg_generator 0 (Arr1 [0; 1; 1])
                 [[1 # 2; 1 # 2]; [1 # 4; 3 # 4]]%Q (Some 0)) <> Ok y'.
Proof.
  apply (multiclass_noisify_flat_labels lcg_generator 0 [0; 1; 1]
           [[1 # 2; 1 # 2]; [1 # 4; 3 # 4]]%Q (Some 0)).
  - discriminate.
  - apply (proj1 (checks_iff (Arr1 [0; 1; 1]) _ 1 eq_refl ltac:(discriminate))).
    reflexivity.
  - repeat constructor; lia.
  - reflexivity.
Defined.

(** The same matrix and labels as a column of shape [(3, 1)] are sampled. *)
Example column_labels_are_sampled :
  multiclass_noisify lcg_generator 0 (Arr2 [[0]; [1]; [1]])
    [[1 # 2; 1 # 2]; [1 # 4; 3 # 4]]%Q (Some 0)
  = ([EvSampler; EvDraw; EvDraw; EvDraw], Ok (Arr2 [[0]; [1]; [1]])).
Proof. vm_compute. reflexivity. Qed.

(** * The realized noise rate *)

Lemma mean_not_equal_positive (a b : labels) :
  Qltb 0 (mean_not_equal a b) = true -> (0 < count_diff (flat a) (flat b))%nat.
Proof.
  intros H. apply Qltb_lt in H. unfold mean_not_equal in H.
  destruct (count_diff (flat a) (flat b)); [|lia].
  exfalso. simpl in H. unfold Qdiv in H. rewrite Qmult_0_l in H.
  revert H. apply Qlt_irrefl.
Qed.


Section RealizedRate.

Variable G : Generator.
Variable os_state : gen_state G.

(** Under [n > 0.0]: sample, then assert that the realized rate is
    positive, then print and return. *)
Lemma sample_and_check_positive y n rs m :
  (0 < n)%Q ->
  sample_and_check G os_state y n rs m =
  match multiclass_noisify G os_state y m rs with
  | (l, Ok y') =>
      if Qltb 0 (mean_not_equal y' y)
      then (l ++ [EvPrint (mean_not_equal y' y)],
            Ok (y', Some (mean_not_equal y' y)))
      else (l, Raise AssertionError)
  | (l, Raise e) => (l, Raise e)
  end.
Proof.
  intros Hn. unfold sample_and_check. apply Qltb_lt in Hn. rewrite Hn.
  destruct (multiclass_noisify G os_state y m rs) as [l [y'|e]]; [|reflexivity].
  cbn [bind]. destruct (Qltb 0 (mean_not_equal y' y)); simpl.
  - reflexivity.
  - now rewrite app_nil_r.
Qed.

End RealizedRate.




(** A run in which the one label is left as it was: the assertion fails. *)
Example pairflip_no_flip_aborts :
  noisify lcg_generator 0 2 (Arr2 [[0]]) (Some "pairflip"%string) (1 # 10) (Some 0)
  = ([EvAlloc; EvSampler; EvDraw], Raise AssertionError).
Proof. vm_compute. reflexivity. Qed.

(** * Configurations outside the stated domain *)

Lemma entries_nonneg_entry (m : matrix) (a b : nat) :
  entries_nonneg m -> (a < length m)%nat -> (b < length (nth a m []))%nat ->
  (0 <= entry m a b)%Q.
Proof.
  intros H Ha Hb. unfold entries_nonneg in H. rewrite Forall_forall in H.
  specialize (H (nth a m []) (nth_In _ _ Ha)). rewrite Forall_forall in H.
  apply H, nth_In, Hb.
Qed.

Section InvalidConfiguration.

Variable G : Generator.
Variable os_state : gen_state G.

(** A matrix with a negative entry never gets through the sampler. *)
Lemma multiclass_noisify_negative_entry y m rs a b :
  (a < length m)%nat -> (b < length (nth a m []))%nat -> (entry m a b < 0)%Q ->
  is_ok (outcome (multiclass_noisify G os_state y m rs)) = false.
Proof.
  intros Ha Hb Hneg.
  destruct (flat y) as [|x xs] eqn:Ey.
  - unfold multiclass_noisify, np_max. rewrite Ey.
    destruct (Nat.eqb (shape0 m) (shape1 m)); reflexivity.
  - assert (Hy : flat y <> []) by (rewrite Ey; discriminate).
    rewrite (multiclass_noisify_rejects G os_state y m rs Hy); [reflexivity|].
    intros (_ & _ & _ & Hnn).
    pose proof (entries_nonneg_entry m a b Hnn Ha Hb) as Hge.
    revert Hneg. now apply Qle_not_lt.
Qed.

Lemma noisify_negative_classes t C y n rs :
  C < 0 ->
  noisify G os_state C y (Some (topology_name t)) n rs
  = ([], Raise negative_dimensions).
Proof.
  intros HC. rewrite noisify_builder.
  destruct t; simpl; unfold pairflip_matrix, symmetric_matrix, np_eye, np_ones;
    destruct (Z.ltb_spec C 0); try lia; reflexivity.
Qed.

Lemma noisify_nonpositive_noise t C y n rs :
  0 <= C -> (n <= 0)%Q -> (t = Symmetric -> C <> 1) ->
  noisify G os_state C y (Some (topology_name t)) n rs = ([EvAlloc], Ok (y, None)).
Proof.
  intros HC Hn Ht. rewrite noisify_builder. destruct t; simpl transition_matrix.
  - rewrite pairflip_matrix_zero by auto.
    cbn [bind]. now rewrite sample_and_check_zero.
  - rewrite symmetric_matrix_zero by auto.
    cbn [bind]. now rewrite sample_and_check_zero.
Qed.

Lemma noisify_symmetric_one_class y n rs :
  noisify G os_state 1 y (Some (topology_name Symmetric)) n rs
  = ([EvAlloc], Raise ZeroDivisionError).
Proof. reflexivity. Qed.

Lemma noisify_pairflip_one_class y n rs :
  (0 < n)%Q ->
  noisify G os_state 1 y (Some (topology_name Pairflip)) n rs
  = ([EvAlloc], Raise IndexError).
Proof.
  intros Hn. apply Qltb_lt in Hn.
  unfold noisify; simpl str_eq; cbv iota.
  unfold noisify_pairflip. rewrite Hn. reflexivity.
Qed.

Lemma noisify_no_class t y n rs :
  (0 < n)%Q ->
  noisify G os_state 0 y (Some (topology_name t)) n rs
  = ([EvAlloc], Raise IndexError).
Proof.
  intros Hn. apply Qltb_lt in Hn.
  destruct t; unfold noisify; simpl str_eq; cbv iota.
  - unfold noisify_pairflip. rewrite Hn. reflexivity.
  - unfold noisify_multiclass_symmetric.
    cbn [np_ones Z.ltb Z.compare bind tell ret lift float_div_int Z.sub
         Z.add Z.opp Z.eqb Z.pos_sub app].
    rewrite Hn. reflexivity.
Qed.

Lemma noisify_noise_above_one t C y n rs :
  2 <= C -> (1 < n)%Q ->
  is_ok (outcome (noisify G os_state C y (Some (topology_name t)) n rs)) = false.
Proof.
  intros HC Hn. rewrite noisify_builder.
  assert (Hpos : (0 < n)%Q) by lra.
  assert (Hm : exists m,
             transition_matrix t n C = ([EvAlloc], Ok m)
             /\ square_of (Z.to_nat C) m
             /\ entry m 0 0 = (1 - n)%Q).
  { destruct t; simpl.
    - destruct (pairflip_matrix_positive C n HC Hpos) as (m & E & Hsq & H).
      exists m. repeat split; try apply Hsq; auto. now rewrite H by lia.
    - destruct (symmetric_matrix_positive C n HC Hpos) as (m & E & Hsq & H).
      exists m. repeat split; try apply Hsq; auto. now rewrite H by lia. }
  destruct Hm as (m & E & Hsq & H00). rewrite E. cbn [bind].
  rewrite (sample_and_check_positive G os_state y n rs m Hpos).
  assert (Hbad : is_ok (outcome (multiclass_noisify G os_state y m rs)) = false).
  { apply (multiclass_noisify_negative_entry y m rs 0 0).
    - destruct Hsq as [Hl _]. lia.
    - rewrite (square_of_row _ _ 0 Hsq); lia.
    - rewrite H00. lra. }
  destruct (multiclass_noisify G os_state y m rs) as [l [y'|e]];
    [discriminate|reflexivity].
Qed.

End InvalidConfiguration.

(** C8, as amended. There is no configuration check.  With a class count
    below 2 or a noise level outside [0,1] the call fails exactly when the
    class count is negative (the allocation is refused), or the noise level
    is positive (the fill indexes outside a matrix of 0 or 1 classes; with
    [C >= 2] and a noise level above 1 the sampler rejects the negative
    diagonal), or the topology is symmetric with one class (division by
    [C - 1 = 0]).  In every other such configuration, in particular for a
    negative noise level, it returns the input labels and no realized
    rate. *)
Theorem noisify_invalid_configuration (G : Generator) (os : gen_state G)
        (C : Z) (y : labels) (t : topology) (n : Q) (rs : option Z) :
  C < 2 \/ (n < 0)%Q \/ (1 < n)%Q ->
  (is_ok (outcome (noisify G os C y (Some (topology_name t)) n rs)) = false
   <-> C < 0 \/ (0 < n)%Q \/ (C = 1 /\ t = Symmetric))
  /\ (is_ok (outcome (noisify G os C y (Some (topology_name t)) n rs)) = true ->
      noisify G os C y (Some (topology_name t)) n rs = ([EvAlloc], Ok (y, None)))
  /\ (C = 1 -> t = Symmetric ->
      noisify G os C y (Some (topology_name t)) n rs
      = ([EvAlloc], Raise ZeroDivisionError))
  /\ (C = 1 -> t = Pairflip -> (0 < n)%Q ->
      noisify G os C y (Some (topology_name t)) n rs
      = ([EvAlloc], Raise IndexError)).
Proof.
  intros Hbad.
  assert (Hfail :
            C < 0 \/ (0 < n)%Q \/ (C = 1 /\ t = Symmetric) ->
            is_ok (outcome (noisify G os C y (Some (topology_name t)) n rs)) = false).
  { intros [HC|[Hn|[HC Ht]]].
    - now rewrite noisify_negative_classes.
    - destruct (Z.lt_ge_cases C 0) as [H0|H0];
        [now rewrite noisify_negative_classes|].
      destruct (Z.eq_dec C 0) as [->|Hn0]; [now rewrite noisify_no_class|].
      destruct (Z.eq_dec C 1) as [->|Hn1].
      + destruct t; [now rewrite noisify_pairflip_one_class
                    | now rewrite noisify_symmetric_one_class].
      + apply noisify_noise_above_one; [lia|].
        destruct Hbad as [H|[H|H]]; [lia | lra | exact H].
    - subst. now rewrite noisify_symmetric_one_class. }
  assert (Hok :
            ~ (C < 0 \/ (0 < n)%Q \/ (C = 1 /\ t = Symmetric)) ->
            noisify G os C y (Some (topology_name t)) n rs = ([EvAlloc], Ok (y, None))).
  { intros Hnot. apply noisify_nonpositive_noise.
    - lia.
    - apply Qnot_lt_le. intros H. apply Hnot. auto.
    - intros Ht HC. apply Hnot. auto. }
  assert (Hdec : (C < 0 \/ (0 < n)%Q \/ (C = 1 /\ t = Symmetric))
                 \/ ~ (C < 0 \/ (0 < n)%Q \/ (C = 1 /\ t = Symmetric))).
  { destruct (Z.lt_ge_cases C 0); [now left; left|].
    destruct (Qlt_le_dec 0 n); [now left; right; left|].
    destruct (Z.eq_dec C 1) as [HC|HC].
    - destruct t.
      + right. intros [?|[?|[_ ?]]]; [lia | lra | discriminate].
      + left. auto.
    - right. intros [?|[?|[? _]]]; [lia | lra | lia]. }
  repeat split.
  - intros H. destruct Hdec as [Hd|Hd]; [exact Hd|].
    rewrite (Hok Hd) in H. discriminate.
  - exact Hfail.
  - intros H. destruct Hdec as [Hd|Hd]; [|exact (Hok Hd)].
    rewrite (Hfail Hd) in H. discriminate.
  - intros -> ->. apply noisify_symmetric_one_class.
  - intros -> -> Hn. now apply noisify_pairflip_one_class.
Qed.

Lemma noisify_invalid_configuration_witness :
  (is_ok (outcome (noisify lcg_generator 0 1 five_zeros
                           (Some (topology_name Pairflip)) 0 (Some 0))) = false
   <-> 1 < 0 \/ (0 < 0)%Q \/ (1 = 1 /\ Pairflip = Symmetric))
  /\ (is_ok (outcome (noisify lcg_generator 0 1 five_zeros
                              (Some (topology_name Pairflip)) 0 (Some 0))) = true ->
      noisify lcg_generator 0 1 five_zeros (Some (topology_name Pairflip)) 0 (Some 0)
      = ([EvAlloc], Ok (five_zeros, None)))
  /\ (1 = 1 -> Pairflip = Symmetric ->
      noisify lcg_generator 0 1 five_zeros (Some (topology_name Pairflip)) 0 (Some 0)
      = ([EvAlloc], Raise ZeroDivisionError))
  /\ (1 = 1 -> Pairflip = Pairflip -> (0 < 0)%Q ->
      noisify lcg_generator 0 1 five_zeros (Some (topology_name Pairflip)) 0 (Some 0)
      = ([EvAlloc], Raise IndexError)).
Proof.
  apply (noisify_invalid_configuration lcg_generator 0 1 five_zeros Pairflip 0 (Some 0)).
  left. lia.
Defined.

(** C8 as stated fails: one class with pairflip at noise level 0, and a
    negative noise level with two classes, are both accepted, and the input
    labels come back with no realized rate. *)
Lemma invalid_configuration_accepted :
  noisify lcg_generator 0 1 five_zeros (Some "pairflip"%string) 0 (Some 0)
  = ([EvAlloc], Ok (five_zeros, None))
  /\ noisify lcg_generator 0 2 five_zeros (Some "symmetric"%string) (- (1 # 2)) (Some 0)
     = ([EvAlloc], Ok (five_zeros, None)).
Proof. split; vm_compute; reflexivity. Qed.


(** * Further properties of the sampler *)

Lemma where_eq_1_one_hot_from (d j s : nat) :
  map (fun p => Z.of_nat (fst p))
      (filter (fun p => snd p =? 1)
              (combine (seq s d)
                       (map (fun c => if Nat.eqb c j then 1 else 0) (seq s d))))
  = if Nat.leb s j && Nat.ltb j (s + d) then [Z.of_nat j] else [].
Proof.
  revert s; induction d as [|d IH]; intros s; simpl.
  - case_entries.
  - destruct (Nat.eqb_spec s j) as [->|Hne]; simpl; rewrite IH; case_entries.
Qed.

(** [np.where(flipped == 1)[0]] of a one-hot row is its index. *)
Lemma where_eq_1_one_hot (d j : nat) :
  (j < d)%nat ->
  where_eq_1 (map (fun c => if Nat.eqb c j then 1 else 0) (seq 0 d)) = [Z.of_nat j].
Proof.
  intros H. unfold where_eq_1. rewrite length_map, length_seq.
  rewrite where_eq_1_one_hot_from. case_entries.
Qed.

Lemma norm_index_wrap (c : nat) (l : Z) :
  index_in_bounds c l -> norm_index c l = Ok (wrap_index c l).
Proof.
  unfold index_in_bounds, norm_index, wrap_index. intros H.
  bdestruct; simpl; try reflexivity; lia.
Qed.

Lemma wrap_index_lt (c : nat) (l : Z) :
  index_in_bounds c l -> (wrap_index c l < c)%nat.
Proof.
  unfold index_in_bounds, wrap_index. intros H. bdestruct; lia.
Qed.

(** [matrix[i, :]] for a row [i] of labels that are all in bounds: one
    matrix row per label. *)
Lemma matrix_rows_in_bounds (m : matrix) (r : list Z) :
  Forall (index_in_bounds (shape0 m)) r ->
  matrix_rows m (LRow r)
  = Ok (F2 (map (fun l => nth (wrap_index (shape0 m) l) m []) r)).
Proof.
  intros H. simpl.
  assert (E : forall acc,
             for_each r acc
               (fun acc i => i' <~ norm_index (shape0 m) i ;;
                             Ok (acc ++ [nth i' m []]))
             = Ok (acc ++ map (fun l => nth (wrap_index (shape0 m) l) m []) r)).
  { induction H as [|l r Hl Hr IH]; intros acc; simpl.
    - now rewrite app_nil_r.
    - rewrite (norm_index_wrap _ _ Hl). simpl. rewrite IH.
      now rewrite <- app_assoc. }
  rewrite E. reflexivity.
Qed.

Lemma update_middle {A : Type} (done rest : list A) (r v : A) :
  update (length done) v (done ++ r :: rest) = done ++ v :: rest.
Proof.
  induction done as [|x done IH]; simpl; [reflexivity|]. now rewrite IH.
Qed.

Lemma nth_middle_row {A : Type} (done rest : list A) (r d : A) :
  nth (length done) (done ++ r :: rest) d = r.
Proof.
  induction done as [|x done IH]; simpl; auto.
Qed.

Section SamplingRows.

Variable G : Generator.
Variable m : matrix.
Variable good : list Q -> nat -> Prop.

(** The generator accepts every row of [m] and its capped draw is [good]. *)
Hypothesis draw_good :
  forall st p, In p m ->
    exists j st', gen_choice G st p = Some (j, st')
                  /\ good p (Nat.min j (length p - 1)).

Hypothesis rows_nonempty : Forall (fun r => r <> []) m.

(** One pass of the loop body over a row of labels in bounds. *)
Lemma noisify_step_row (before after done : list (list Z)) (r : list Z)
      (st : gen_state G) :
  length done = length before ->
  r <> [] -> Forall (index_in_bounds (shape0 m)) r ->
  exists r' st',
    noisify_step G (Arr2 (before ++ r :: after)) m
                 (Arr2 (done ++ r :: after), st) (length before)
    = ([EvDraw], Ok (Arr2 (done ++ r' :: after), st'))
    /\ row_resampled m good r r'.
Proof.
  intros Hlen Hr Hb. unfold noisify_step.
  cbn [labels_getitem]. rewrite nth_middle_row.
  rewrite (matrix_rows_in_bounds m r Hb).
  destruct r as [|l r]; [congruence|]. inversion Hb as [|? ? Hl Hrest]; subst.
  cbn [lift bind map first_item tell app].
  set (p := nth (wrap_index (shape0 m) l) m []).
  assert (Hin : In p m) by (apply nth_In, wrap_index_lt, Hl).
  assert (Hp : p <> []) by (rewrite Forall_forall in rows_nonempty; auto).
  destruct (draw_good st p Hin) as (j & st' & Ej & Hgood).
  unfold multinomial_1_1. rewrite Ej. cbn [bind nth].
  assert (Hj : (Nat.min j (length p - 1) < length p)%nat).
  { destruct p; [congruence|]. simpl. lia. }
  rewrite (where_eq_1_one_hot _ _ Hj).
  unfold labels_setitem. rewrite <- Hlen, nth_middle_row, update_middle.
  cbn [bind app ret].
  eexists _, st'. split; [reflexivity|].
  exists (Nat.min j (length p - 1)). repeat split; auto.
Qed.

(** The loop over the remaining rows. *)
Lemma sample_loop_rows (rest : list (list Z)) :
  forall (before done : list (list Z)) (st : gen_state G),
    length done = length before ->
    Forall (fun r => r <> [] /\ Forall (index_in_bounds (shape0 m)) r) rest ->
    exists done' st',
      for_eachM (seq (length before) (length rest))
                (Arr2 (done ++ rest), st)
                (noisify_step G (Arr2 (before ++ rest)) m)
      = (repeat EvDraw (length rest), Ok (Arr2 (done ++ done'), st'))
      /\ Forall2 (row_resampled m good) rest done'.
Proof.
  induction rest as [|r rest IH]; intros before done st Hlen Hrest.
  - exists [], st. split; [reflexivity | constructor].
  - inversion Hrest as [|? ? [Hr Hb] Hrest']; subst.
    destruct (noisify_step_row before rest done r st Hlen Hr Hb)
      as (r' & st1 & E1 & Hr').
    cbn [length seq for_eachM]. rewrite E1. cbn [bind].
    destruct (IH (before ++ [r]) (done ++ [r']) st1) as (done' & st' & E & Hd).
    { rewrite !length_app. simpl. lia. }
    { exact Hrest'. }
    rewrite <- !app_assoc in E. cbn [app] in E.
    rewrite length_app in E. cbn [length] in E.
    rewrite Nat.add_1_r in E. rewrite E.
    exists (r' :: done'), st'. split.
    + reflexivity.
    + now constructor.
Qed.

End SamplingRows.

Lemma Forall_concat_rows {A : Type} (P : A -> Prop) (rows : list (list A)) :
  Forall P (concat rows) <-> Forall (Forall P) rows.
Proof.
  induction rows as [|r rows IH]; simpl.
  - split; constructor.
  - rewrite Forall_app, IH. split.
    + intros [H1 H2]. now constructor.
    + intros H. now inversion H.
Qed.

Lemma rows_sum_to_one_nonempty (m : matrix) :
  rows_sum_to_one m -> Forall (fun r => r <> []) m.
Proof.
  unfold rows_sum_to_one. apply Forall_impl. intros r. apply row_sum_nonempty.
Qed.

(** The sampler on a two-dimensional label array whose labels index the
    matrix: all checks pass, one draw is made per row, and every output row
    is its input row overwritten by the class drawn for it. *)
Lemma multiclass_noisify_rows (G : Generator) (os : gen_state G) (m : matrix)
      (good : list Q -> nat -> Prop) (rows : list (list Z)) (rs : option Z)
      (c : nat) :
  (forall st p, In p m ->
     exists j st', gen_choice G st p = Some (j, st')
                   /\ good p (Nat.min j (length p - 1))) ->
  square_of c m -> rows_sum_to_one m -> entries_nonneg m ->
  rows <> [] -> Forall (fun r => r <> []) rows ->
  Forall (index_in_bounds c) (concat rows) ->
  is_ok (RandomState G os rs) = true ->
  exists rows',
    multiclass_noisify G os (Arr2 rows) m rs
    = (EvSampler :: repeat EvDraw (length rows), Ok (Arr2 rows'))
    /\ Forall2 (row_resampled m good) rows rows'.
Proof.
  intros Hgen Hsq Hsum Hpos Hrows Hne Hb Hseed.
  destruct (square_of_shape _ _ Hsq) as [H0 H1].
  assert (Hflat : flat (Arr2 rows) <> []).
  { destruct rows as [|r rows]; [congruence|]. inversion Hne; subst.
    destruct r; [congruence|]. discriminate. }
  assert (Hpre : preconditions (Arr2 rows) m).
  { repeat split; auto.
    - unfold matrix_is_square. congruence.
    - unfold labels_below_rows. rewrite H0. simpl.
      revert Hb. apply Forall_impl. unfold index_in_bounds. intros l Hl. lia. }
  rewrite (multiclass_noisify_accepts G os (Arr2 rows) m rs Hflat Hpre).
  unfold draw_all, lift.
  destruct (RandomState G os rs) as [flipper|e]; [|discriminate].
  destruct (sample_loop_rows G m good Hgen (rows_sum_to_one_nonempty m Hsum)
              rows [] [] flipper eq_refl) as (rows' & st' & E & Hres).
  { apply Forall_concat_rows in Hb. rewrite H0.
    clear - Hne Hb. induction Hne; inversion Hb; subst; constructor; auto. }
  cbn [length app labels_shape0] in E |- *.
  cbn [bind tell]. rewrite E. cbn [bind ret fst app].
  exists rows'. rewrite app_nil_r. split; [reflexivity | exact Hres].
Qed.

Lemma row_resampled_domain (m : matrix) (good : list Q -> nat -> Prop)
      (c : nat) (rows rows' : list (list Z)) :
  square_of c m -> Forall (Forall (index_in_bounds c)) rows ->
  Forall (fun r => r <> []) rows ->
  Forall2 (row_resampled m good) rows rows' ->
  Forall2 (fun r r' => exists j, 0 <= j < Z.of_nat c
                                 /\ r' = repeat j (length r)) rows rows'.
Proof.
  intros Hsq Hb Hne H.
  revert Hb Hne. induction H as [|r r' rows rows' Hr Hrest IH]; intros Hb Hne.
  - constructor.
  - inversion Hb as [|? ? Hbr Hbs]; inversion Hne as [|? ? Hnr Hns]; subst.
    constructor; [|now apply IH].
    destruct Hr as (j & Hj & _ & ->).
    exists (Z.of_nat j). split; [|reflexivity].
    destruct (square_of_shape _ _ Hsq) as [Hs0 _]. rewrite Hs0 in Hj. rewrite (square_of_row c m) in Hj; auto; [lia|].
    apply wrap_index_lt. destruct r; [congruence|]. now inversion Hbr.
Qed.

(** X1. On a label array of shape (m, k) with k >= 1 whose labels lie in
    [-C, C), a C by C row-stochastic matrix, a seed and a generator that
    accepts the rows, the sampler returns: it makes exactly one draw per row
    and the output has the shape of the input, every row holding one class
    of [0, C) in all its columns. *)
Theorem multiclass_noisify_samples (G : Generator) (os : gen_state G)
        (m : matrix) (rows : list (list Z)) (rs : option Z) (c : nat) :
  accepts G m ->
  square_of c m -> rows_sum_to_one m -> entries_nonneg m ->
  rows <> [] -> Forall (fun r => r <> []) rows ->
  Forall (index_in_bounds c) (concat rows) ->
  is_ok (RandomState G os rs) = true ->
  exists rows',
    multiclass_noisify G os (Arr2 rows) m rs
    = (EvSampler :: repeat EvDraw (length rows), Ok (Arr2 rows'))
    /\ Forall2 (fun r r' => exists j, 0 <= j < Z.of_nat c
                                      /\ r' = repeat j (length r)) rows rows'.
Proof.
  intros Hacc Hsq Hsum Hpos Hrows Hne Hb Hseed.
  destruct (multiclass_noisify_rows G os m (fun _ _ => True) rows rs c)
    as (rows' & E & H); auto.
  { intros st p Hp. specialize (Hacc st p Hp).
    destruct (gen_choice G st p) as [[j st']|]; [|congruence].
    exists j, st'. auto. }
  exists rows'. split; [exact E|].
  apply (row_resampled_domain m (fun _ _ => True)); auto.
  now apply Forall_concat_rows.
Qed.

(** X2. If moreover, on the rows of this matrix, the generator only draws
    classes of positive probability, every output row holds a class [j]
    with [matrix[i, j] > 0], where [i] is the first label of the input row
    (counted from the end when negative). *)
Theorem multiclass_noisify_support (G : Generator) (os : gen_state G)
        (m : matrix) (rows : list (list Z)) (rs : option Z) (c : nat) :
  accepts G m -> draws_from_support G m ->
  square_of c m -> rows_sum_to_one m -> entries_nonneg m ->
  rows <> [] -> Forall (fun r => r <> []) rows ->
  Forall (index_in_bounds c) (concat rows) ->
  is_ok (RandomState G os rs) = true ->
  exists rows',
    outcome (multiclass_noisify G os (Arr2 rows) m rs) = Ok (Arr2 rows')
    /\ Forall2 (fun r r' =>
                  exists j : nat,
                    r' = repeat (Z.of_nat j) (length r)
                    /\ (0 < entry m (wrap_index c (hd 0%Z r)) j)%Q) rows rows'.
Proof.
  intros Hacc Hsup Hsq Hsum Hpos Hrows Hne Hb Hseed.
  destruct (multiclass_noisify_rows G os m (fun p j => (0 < nth j p 0)%Q) rows rs c)
    as (rows' & E & H); auto.
  { intros st p Hp. specialize (Hacc st p Hp).
    destruct (gen_choice G st p) as [[j st']|] eqn:Ej; [|congruence].
    exists j, st'. split; [reflexivity|].
    exact (Hsup st p j st' Hp Ej). }
  exists rows'. rewrite E. split; [reflexivity|].
  destruct (square_of_shape _ _ Hsq) as [H0 _].
  revert H. apply Forall2_impl. intros r r' (j & _ & Hgt & ->).
  rewrite H0 in Hgt. exists j. split; [reflexivity | exact Hgt].
Qed.

(** ** The generators of the examples draw from the support *)

Lemma first_positive_spec (p : list Q) (j : nat) :
  first_positive p = Some j -> (j < length p)%nat /\ (0 < nth j p 0)%Q.
Proof.
  revert j; induction p as [|x p IH]; intros j; simpl; [discriminate|].
  destruct (Qltb 0 x) eqn:E.
  - intros H. injection H as <-. split; [lia | now apply Qltb_lt].
  - destruct (first_positive p) as [k|]; simpl; [|discriminate].
    intros H. injection H as <-. destruct (IH k eq_refl). split; [lia | auto].
Qed.

Lemma first_positive_generator_support (m : matrix) :
  draws_from_support first_positive_generator m.
Proof.
  intros st p j st' _ H. simpl in H.
  destruct (first_positive p) as [k|] eqn:E; simpl in H; [|discriminate].
  injection H as <- <-. destruct (first_positive_spec p k E) as [Hk Hgt].
  now replace (Nat.min k (length p - 1)) with k by lia.
Qed.

(** Inverse-transform sampling of a point below the total mass lands on a
    class of positive probability. *)
Lemma inverse_cdf_support (p : list Q) :
  forall u : Q,
    Forall (fun x => (0 <= x)%Q) p -> (0 <= u)%Q -> (u < row_sum p)%Q ->
    (inverse_cdf p u < length p)%nat /\ (0 < nth (inverse_cdf p u) p 0)%Q.
Proof.
  induction p as [|x p IH]; intros u Hp Hu Hs.
  - exfalso. unfold row_sum in Hs. cbn [fold_left] in Hs. lra.
  - rewrite row_sum_cons in Hs. inversion Hp as [|? ? Hx Hp']; subst.
    cbn [inverse_cdf]. destruct (Qltb u x) eqn:E.
    + apply Qltb_lt in E. cbn [length nth]. split; [lia | lra].
    + apply Qltb_ge in E.
      destruct (IH (u - x)%Q Hp') as [Hj Hgt]; [lra | lra |].
      cbn [length nth]. split; [lia | exact Hgt].
Qed.

Lemma row_sum_removelast (p : list Q) :
  Forall (fun x => (0 <= x)%Q) p -> (row_sum (removelast p) <= row_sum p)%Q.
Proof.
  induction 1 as [|x p Hx Hp IH].
  - apply Qle_refl.
  - destruct p as [|y p].
    + cbn [removelast]. rewrite row_sum_cons.
      unfold row_sum. cbn [fold_left]. lra.
    + change (removelast (x :: y :: p)) with (x :: removelast (y :: p)).
      rewrite !row_sum_cons. rewrite row_sum_cons in IH. lra.
Qed.

(** The stream of [lcg_generator] stays in [0, 1). *)
Lemma lcg_unit_interval (s : Z) :
  (0 <= inject_Z (lcg_next s) / inject_Z (2 ^ 31))%Q
  /\ (inject_Z (lcg_next s) / inject_Z (2 ^ 31) < 1)%Q.
Proof.
  assert (Hb : 0 <= lcg_next s < 2 ^ 31).
  { unfold lcg_next. apply Z.mod_pos_bound. lia. }
  assert (Hpos : (0 < inject_Z (2 ^ 31))%Q) by (apply inject_Z_pos; lia).
  split.
  - apply Qle_shift_div_l; [exact Hpos|]. rewrite Qmult_0_l.
    change 0%Q with (inject_Z 0). rewrite <- Zle_Qle. lia.
  - apply Qlt_shift_div_r; [exact Hpos|]. rewrite Qmult_1_l.
    rewrite <- Zlt_Qlt. lia.
Qed.

(** On a matrix whose rows are non-negative and sum to 1, [lcg_generator]
    rejects no row and only draws classes of positive probability. *)
Lemma lcg_generator_on_stochastic (m : matrix) :
  row_stochastic 0 m ->
  accepts lcg_generator m /\ draws_from_support lcg_generator m.
Proof.
  intros Hm.
  assert (Hrow : forall p, In p m ->
            (row_sum p == 1)%Q /\ Forall (fun x => (0 <= x)%Q) p).
  { intros p Hp. destruct (Hm p Hp) as [Hs Hnn]. split; [|exact Hnn].
    apply Qabs_Qle_condition in Hs. lra. }
  assert (Hacc : forall p, In p m ->
            Qltb (1 + (1 # 1000000000000)) (fold_left Qplus (removelast p) 0%Q)
            = false).
  { intros p Hp. destruct (Hrow p Hp) as [Hs Hnn].
    apply Qltb_ge. pose proof (row_sum_removelast p Hnn) as Hle.
    unfold row_sum in Hle, Hs. lra. }
  split.
  - intros st p Hp. unfold lcg_generator, gen_choice.
    rewrite (Hacc p Hp). discriminate.
  - intros st p j st' Hp. unfold lcg_generator, gen_choice.
    rewrite (Hacc p Hp). intros H. injection H as <- _.
    destruct (Hrow p Hp) as [Hs Hnn].
    destruct (lcg_unit_interval st) as [H0 H1].
    destruct (inverse_cdf_support p _ Hnn H0) as [Hj Hgt]; [lra|].
    change (Z.pow_pos 2 31) with (2 ^ 31).
    set (j := inverse_cdf p (inject_Z (lcg_next st) / inject_Z (2 ^ 31))) in *.
    rewrite Nat.min_l by (clearbody j; lia). exact Hgt.
Qed.

Lemma example_matrix_stochastic : row_stochastic 0 example_matrix.
Proof.
  intros r [<-|[<-|[]]]; (split; [vm_compute; discriminate|]);
    repeat (apply Forall_cons; [vm_compute; discriminate|]); apply Forall_nil.
Qed.

Lemma first_positive_generator_accepts_example :
  accepts first_positive_generator example_matrix.
Proof.
  intros st p [<-|[<-|[]]]; discriminate.
Qed.

Lemma example_matrix_square : square_of 2 example_matrix.
Proof.
  split; [reflexivity|]. apply Forall_cons; [reflexivity|].
  apply Forall_cons; [reflexivity|]. apply Forall_nil.
Qed.

Lemma example_matrix_sums : rows_sum_to_one example_matrix.
Proof.
  apply Forall_cons; [reflexivity|]. apply Forall_cons; [reflexivity|].
  apply Forall_nil.
Qed.

Lemma example_matrix_nonneg : entries_nonneg example_matrix.
Proof.
  apply (proj1 (all_nonneg_iff example_matrix)). reflexivity.
Qed.

Lemma example_rows_in_bounds : Forall (index_in_bounds 2) (concat example_rows).
Proof.
  unfold index_in_bounds. simpl.
  apply Forall_cons; [lia|]. apply Forall_cons; [lia|].
  apply Forall_cons; [lia|]. apply Forall_nil.
Qed.

Lemma example_rows_nonempty : Forall (fun r : list Z => r <> []) example_rows.
Proof.
  apply Forall_cons; [discriminate|]. apply Forall_cons; [discriminate|].
  apply Forall_cons; [discriminate|]. apply Forall_nil.
Qed.

Lemma multiclass_noisify_samples_witness :
  exists rows',
    multiclass_noisify first_positive_generator tt (Arr2 example_rows)
                       example_matrix (Some 0)
    = (EvSampler :: repeat EvDraw (length example_rows), Ok (Arr2 rows'))
    /\ Forall2 (fun r r' => exists j, 0 <= j < Z.of_nat 2
                                      /\ r' = repeat j (length r))
               example_rows rows'.
Proof.
  apply (multiclass_noisify_samples first_positive_generator tt example_matrix
           example_rows (Some 0) 2).
  - exact first_positive_generator_accepts_example.
  - exact example_matrix_square.
  - exact example_matrix_sums.
  - exact example_matrix_nonneg.
  - discriminate.
  - exact example_rows_nonempty.
  - exact example_rows_in_bounds.
  - reflexivity.
Defined.

Lemma multiclass_noisify_support_witness :
  exists rows',
    outcome (multiclass_noisify lcg_generator 0 (Arr2 example_rows)
                                example_matrix (Some 0)) = Ok (Arr2 rows')
    /\ Forall2 (fun r r' =>
                  exists j : nat,
                    r' = repeat (Z.of_nat j) (length r)
                    /\ (0 < entry example_matrix (wrap_index 2 (hd 0%Z r)) j)%Q)
               example_rows rows'.
Proof.
  apply (multiclass_noisify_support lcg_generator 0 example_matrix
           example_rows (Some 0) 2).
  - exact (proj1 (lcg_generator_on_stochastic example_matrix
                    example_matrix_stochastic)).
  - exact (proj2 (lcg_generator_on_stochastic example_matrix
                    example_matrix_stochastic)).
  - exact example_matrix_square.
  - exact example_matrix_sums.
  - exact example_matrix_nonneg.
  - discriminate.
  - exact example_rows_nonempty.
  - exact example_rows_in_bounds.
  - reflexivity.
Defined.

(** The condition on the generator cannot be dropped: the checks accept a
    row that sums to 1 only within the tolerance, and a draw above the
    total mass of such a row goes to the last category, whose probability
    may be 0.  Here the stream of [lcg_generator] starts at the state whose
    successor is [2^31 - 1]. *)
Example draw_outside_support :
  multiclass_noisify lcg_generator 230538014 one_zero deficient_matrix None
  = ([EvSampler; EvDraw], Ok (Arr2 [[1]]))
  /\ (entry deficient_matrix 0 1 == 0)%Q.
Proof. split; vm_compute; reflexivity. Qed.

(** * Further properties of the builders and of the orchestrator *)

Lemma checks_of_entries (c : nat) (m : matrix) (g : nat -> nat -> Q) :
  square_of c m ->
  (forall a b, (a < c)%nat -> (b < c)%nat -> (entry m a b == g a b)%Q) ->
  (forall a, (a < c)%nat -> (sumf (g a) 0 c == 1)%Q) ->
  (forall a b, (a < c)%nat -> (b < c)%nat -> (0 <= g a b)%Q) ->
  rows_sum_to_one m /\ entries_nonneg m.
Proof.
  intros Hsq He Hs Hp.
  assert (H : row_stochastic 0 m).
  { apply (row_stochastic_of_entries c m g); auto. apply Qle_refl. }
  split; apply Forall_forall; intros r Hr; destruct (H r Hr) as [H1 H2]; auto.
  rewrite Qabs_Qminus. eapply Qle_lt_trans; [exact H1|]. reflexivity.
Qed.

(** For [C >= 2] and a noise level in (0,1] both builders return a [C] by
    [C] matrix that passes the sampler's checks and whose entries are the
    transition probabilities. *)
Lemma transition_matrix_valid (t : topology) (C : Z) (n : Q) :
  2 <= C -> (0 < n)%Q -> (n <= 1)%Q ->
  exists m,
    transition_matrix t n C = ([EvAlloc], Ok m)
    /\ square_of (Z.to_nat C) m
    /\ rows_sum_to_one m /\ entries_nonneg m
    /\ forall a b, (a < Z.to_nat C)%nat -> (b < Z.to_nat C)%nat ->
         (entry m a b == transition_probability t (Z.to_nat C) n a b)%Q.
Proof.
  intros HC Hn0 Hn1.
  pose proof (inject_Z_pos (C - 1) ltac:(lia)) as Hpos.
  destruct t; simpl transition_matrix.
  - destruct (pairflip_matrix_positive C n HC Hn0) as (m & E & Hm & H).
    exists m. split; [exact E|]. split; [exact Hm|].
    assert (He : forall a b, (a < Z.to_nat C)%nat -> (b < Z.to_nat C)%nat ->
                   (entry m a b == transition_probability Pairflip (Z.to_nat C) n a b)%Q).
    { intros a b Ha Hb. rewrite H by auto. reflexivity. }
    destruct (checks_of_entries (Z.to_nat C) m
                (transition_probability Pairflip (Z.to_nat C) n) Hm He)
      as [H1 H2]; auto.
    + intros a Ha. apply pairflip_row_sum; lia.
    + intros a b _ _. unfold transition_probability. case_entries; lra.
  - destruct (symmetric_matrix_positive C n HC Hn0) as (m & E & Hm & H).
    exists m. split; [exact E|]. split; [exact Hm|].
    assert (He : forall a b, (a < Z.to_nat C)%nat -> (b < Z.to_nat C)%nat ->
                   (entry m a b == transition_probability Symmetric (Z.to_nat C) n a b)%Q).
    { intros a b Ha Hb. rewrite H by auto. unfold transition_probability.
      rewrite Z2Nat.id by lia. case_entries. apply Qmult_1_r. }
    destruct (checks_of_entries (Z.to_nat C) m
                (transition_probability Symmetric (Z.to_nat C) n) Hm He)
      as [H1 H2]; auto.
    + intros a Ha. unfold transition_probability. rewrite Z2Nat.id by lia.
      rewrite <- (symmetric_row_sum n C a HC Ha).
      apply sumf_ext. intros j _. case_entries. now rewrite Qmult_1_r.
    + intros a b _ _. unfold transition_probability. rewrite Z2Nat.id by lia.
      case_entries; [lra|]. apply Qle_shift_div_l; lra.
Qed.

Lemma nonneg_labels_in_bounds (c : nat) (ls : list Z) :
  Forall (fun l => 0 <= l < Z.of_nat c) ls -> Forall (index_in_bounds c) ls.
Proof.
  apply Forall_impl. unfold index_in_bounds. intros l H. lia.
Qed.

(** The orchestrator on a valid configuration, in terms of the sampled
    rows: the matrix is built, every row is sampled, and the call returns
    or aborts according to the realized rate alone. *)
Lemma noisify_rows (G : Generator) (os : gen_state G) (t : topology) (C : Z)
      (n : Q) (rows : list (list Z)) (rs : option Z)
      (good : list Q -> nat -> Prop) :
  2 <= C -> (0 < n)%Q -> (n <= 1)%Q ->
  rows <> [] -> Forall (fun r => r <> []) rows ->
  Forall (fun l => 0 <= l < C) (concat rows) ->
  is_ok (RandomState G os rs) = true ->
  (forall m st p, outcome (transition_matrix t n C) = Ok m -> In p m ->
     exists j st', gen_choice G st p = Some (j, st')
                   /\ good p (Nat.min j (length p - 1))) ->
  exists m rows',
    transition_matrix t n C = ([EvAlloc], Ok m)
    /\ square_of (Z.to_nat C) m
    /\ (forall a b, (a < Z.to_nat C)%nat -> (b < Z.to_nat C)%nat ->
          (entry m a b == transition_probability t (Z.to_nat C) n a b)%Q)
    /\ Forall2 (row_resampled m good) rows rows'
    /\ noisify G os C (Arr2 rows) (Some (topology_name t)) n rs
       = if Qltb 0 (mean_not_equal (Arr2 rows') (Arr2 rows))
         then (EvAlloc :: EvSampler :: repeat EvDraw (length rows)
                 ++ [EvPrint (mean_not_equal (Arr2 rows') (Arr2 rows))],
               Ok (Arr2 rows', Some (mean_not_equal (Arr2 rows') (Arr2 rows))))
         else (EvAlloc :: EvSampler :: repeat EvDraw (length rows),
               Raise AssertionError).
Proof.
  intros HC Hn0 Hn1 Hrows Hne Hlab Hseed Hgen.
  destruct (transition_matrix_valid t C n HC Hn0 Hn1)
    as (m & E & Hsq & Hsum & Hpos & Hent).
  assert (Hb : Forall (index_in_bounds (Z.to_nat C)) (concat rows)).
  { apply nonneg_labels_in_bounds. revert Hlab. apply Forall_impl.
    intros l Hl. lia. }
  destruct (multiclass_noisify_rows G os m good rows rs (Z.to_nat C))
    as (rows' & Es & Hres); auto.
  { intros st p Hp. apply (Hgen m st p); [now rewrite E | exact Hp]. }
  exists m, rows'. repeat split; try apply Hsq; auto.
  rewrite noisify_builder, E. cbn [bind].
  rewrite (sample_and_check_positive G os (Arr2 rows) n rs m Hn0), Es.
  destruct (Qltb 0 (mean_not_equal (Arr2 rows') (Arr2 rows))); reflexivity.
Qed.

Lemma row_resampled_nonneg_domain (m : matrix) (good : list Q -> nat -> Prop)
      (C : Z) (rows rows' : list (list Z)) :
  square_of (Z.to_nat C) m -> 0 <= C ->
  Forall (fun l => 0 <= l < C) (concat rows) ->
  Forall (fun r => r <> []) rows ->
  Forall2 (row_resampled m good) rows rows' ->
  Forall2 (fun r r' => exists j, 0 <= j < C /\ r' = repeat j (length r)) rows rows'.
Proof.
  intros Hsq HC Hlab Hne H.
  assert (Hb : Forall (Forall (index_in_bounds (Z.to_nat C))) rows).
  { apply Forall_concat_rows, nonneg_labels_in_bounds.
    revert Hlab. apply Forall_impl. intros l Hl. lia. }
  pose proof (row_resampled_domain m good (Z.to_nat C) rows rows' Hsq Hb Hne H) as H'.
  revert H'. apply Forall2_impl. intros r r' (j & Hj & ->).
  exists j. split; [lia | reflexivity].
Qed.

(** X3. On a valid configuration (C >= 2, noise level in (0,1], a
    two-dimensional label array with labels in [0, C), a seed and a
    generator that accepts the rows of the matrix) the orchestrator always
    allocates, samples every row and then either returns an array of the
    same shape with labels in [0, C), at least one changed position and the
    realized rate, or fails the assertion on the realized rate; no other
    error is possible. *)
Theorem noisify_valid_configuration (G : Generator) (os : gen_state G)
        (t : topology) (C : Z) (n : Q) (rows : list (list Z)) (rs : option Z) :
  2 <= C -> (0 < n)%Q -> (n <= 1)%Q ->
  rows <> [] -> Forall (fun r => r <> []) rows ->
  Forall (fun l => 0 <= l < C) (concat rows) ->
  is_ok (RandomState G os rs) = true ->
  (forall m, outcome (transition_matrix t n C) = Ok m -> accepts G m) ->
  (exists rows',
      noisify G os C (Arr2 rows) (Some (topology_name t)) n rs
      = (EvAlloc :: EvSampler :: repeat EvDraw (length rows)
           ++ [EvPrint (mean_not_equal (Arr2 rows') (Arr2 rows))],
         Ok (Arr2 rows', Some (mean_not_equal (Arr2 rows') (Arr2 rows))))
      /\ Forall2 (fun r r' => exists j, 0 <= j < C /\ r' = repeat j (length r))
                 rows rows'
      /\ (0 < count_diff (concat rows') (concat rows))%nat)
  \/ noisify G os C (Arr2 rows) (Some (topology_name t)) n rs
     = (EvAlloc :: EvSampler :: repeat EvDraw (length rows), Raise AssertionError).
Proof.
  intros HC Hn0 Hn1 Hrows Hne Hlab Hseed Hacc.
  destruct (noisify_rows G os t C n rows rs (fun _ _ => True))
    as (m & rows' & E & Hsq & _ & Hres & Hn); auto.
  { intros m st p Hm Hp. specialize (Hacc m Hm st p Hp).
    destruct (gen_choice G st p) as [[j st']|]; [|congruence].
    exists j, st'. auto. }
  rewrite Hn.
  destruct (Qltb 0 (mean_not_equal (Arr2 rows') (Arr2 rows))) eqn:Er; [left|now right].
  exists rows'. split; [reflexivity|]. split.
  - apply (row_resampled_nonneg_domain m (fun _ _ => True)); auto. lia.
  - exact (mean_not_equal_positive _ _ Er).
Qed.

Lemma first_positive_accepts_pairflip_half :
  forall m, outcome (transition_matrix Pairflip (1 # 2) 2) = Ok m ->
            accepts first_positive_generator m.
Proof.
  intros m H. vm_compute in H. injection H as <-.
  intros st p [<-|[<-|[]]]; discriminate.
Qed.

Lemma example_rows_nonneg : Forall (fun l => 0 <= l < 2) (concat three_labels).
Proof.
  simpl. apply Forall_cons; [lia|]. apply Forall_cons; [lia|].
  apply Forall_cons; [lia|]. apply Forall_nil.
Qed.

Lemma three_rows_nonempty : Forall (fun r : list Z => r <> []) three_labels.
Proof.
  apply Forall_cons; [discriminate|]. apply Forall_cons; [discriminate|].
  apply Forall_cons; [discriminate|]. apply Forall_nil.
Qed.

Lemma noisify_valid_configuration_witness :
  (exists rows',
      noisify first_positive_generator tt 2 (Arr2 three_labels)
              (Some (topology_name Pairflip)) (1 # 2) (Some 0)
      = (EvAlloc :: EvSampler :: repeat EvDraw (length three_labels)
           ++ [EvPrint (mean_not_equal (Arr2 rows') (Arr2 three_labels))],
         Ok (Arr2 rows', Some (mean_not_equal (Arr2 rows') (Arr2 three_labels))))
      /\ Forall2 (fun r r' => exists j, 0 <= j < 2 /\ r' = repeat j (length r))
                 three_labels rows'
      /\ (0 < count_diff (concat rows') (concat three_labels))%nat)
  \/ noisify first_positive_generator tt 2 (Arr2 three_labels)
             (Some (topology_name Pairflip)) (1 # 2) (Some 0)
     = (EvAlloc :: EvSampler :: repeat EvDraw (length three_labels),
        Raise AssertionError).
Proof.
  apply (noisify_valid_configuration first_positive_generator tt Pairflip 2
           (1 # 2) three_labels (Some 0)).
  - lia.
  - reflexivity.
  - unfold Qle; simpl; lia.
  - discriminate.
  - exact three_rows_nonempty.
  - exact example_rows_nonneg.
  - reflexivity.
  - exact first_positive_accepts_pairflip_half.
Defined.

(** ** The realized rate is a fraction *)

Lemma count_diff_le (a b : list Z) : (count_diff a b <= length b)%nat.
Proof.
  revert b; induction a as [|x a IH]; intros [|y b]; simpl; try lia.
  specialize (IH b). destruct (x =? y); lia.
Qed.

Lemma mean_not_equal_le_1 (a b : labels) : (mean_not_equal a b <= 1)%Q.
Proof.
  unfold mean_not_equal.
  pose proof (count_diff_le (flat a) (flat b)) as H.
  destruct (length (flat b)) as [|k] eqn:E.
  - replace (count_diff (flat a) (flat b)) with 0%nat by lia.
    unfold Qdiv. rewrite Qmult_0_l. discriminate.
  - apply Qle_shift_div_r.
    + apply inject_Z_pos. lia.
    + rewrite Qmult_1_l. rewrite <- Zle_Qle. lia.
Qed.

Lemma outcome_bind_ok {A B : Type} (m : M A) (k : A -> M B) (b : B) :
  outcome (bind m k) = Ok b ->
  exists a, outcome m = Ok a /\ outcome (k a) = Ok b.
Proof.
  destruct m as [l [a|e]]; simpl; [|discriminate].
  intros H. exists a. split; [reflexivity|].
  unfold outcome in *. destruct (k a). exact H.
Qed.

Lemma sample_and_check_returns (G : Generator) (os : gen_state G) (y : labels)
      (n : Q) (rs : option Z) (m : matrix) (y' : labels) (r : option Q) :
  outcome (sample_and_check G os y n rs m) = Ok (y', r) ->
  (r = None /\ y' = y /\ (n <= 0)%Q)
  \/ (r = Some (mean_not_equal y' y) /\ (0 < mean_not_equal y' y)%Q
      /\ (0 < n)%Q /\ outcome (multiclass_noisify G os y m rs) = Ok y').
Proof.
  destruct (Qlt_le_dec 0 n) as [Hn|Hn].
  - rewrite (sample_and_check_positive G os y n rs m Hn).
    destruct (multiclass_noisify G os y m rs) as [l [y1|e]]; [|discriminate].
    destruct (Qltb 0 (mean_not_equal y1 y)) eqn:E; [|discriminate].
    intros H. injection H as <- <-. right. repeat split; auto.
    now apply Qltb_lt.
  - rewrite sample_and_check_zero by exact Hn.
    intros H. injection H as <- <-. left. auto.
Qed.

(** What a call of [noisify] that returns has done, for any arguments. *)
Lemma noisify_returns (G : Generator) (os : gen_state G) (C : Z) (y : labels)
      (noise_type : option string) (n : Q) (rs : option Z)
      (y' : labels) (r : option Q) :
  outcome (noisify G os C y noise_type n rs) = Ok (y', r) ->
  exists t m,
    noise_type = Some (topology_name t)
    /\ outcome (transition_matrix t n C) = Ok m
    /\ outcome (sample_and_check G os y n rs m) = Ok (y', r).
Proof.
  intros H.
  assert (Ht : exists t, noise_type = Some (topology_name t)).
  { unfold noisify, str_eq in H. destruct noise_type as [s|]; [|discriminate].
    destruct (String.eqb_spec s "pairflip") as [->|_]; [now exists Pairflip|].
    destruct (String.eqb_spec s "symmetric") as [->|_]; [now exists Symmetric|].
    discriminate. }
  destruct Ht as [t ->]. rewrite noisify_builder in H.
  apply outcome_bind_ok in H. destruct H as (m & Hm & Hs).
  exists t, m. auto.
Qed.

(** X4. Whatever the arguments, a realized rate that [noisify] returns is
    the fraction of changed positions and lies in (0, 1]. *)
Theorem noisify_rate_is_a_fraction (G : Generator) (os : gen_state G) (C : Z)
        (y : labels) (noise_type : option string) (n : Q) (rs : option Z)
        (y' : labels) (rate : Q) :
  outcome (noisify G os C y noise_type n rs) = Ok (y', Some rate) ->
  rate = mean_not_equal y' y /\ (0 < rate)%Q /\ (rate <= 1)%Q.
Proof.
  intros H. apply noisify_returns in H. destruct H as (t & m & _ & _ & H).
  apply sample_and_check_returns in H.
  destruct H as [(H & _)|(H & Hpos & _)]; [discriminate|].
  injection H as ->. repeat split; auto. apply mean_not_equal_le_1.
Qed.

Lemma noisify_rate_is_a_fraction_witness :
  (5 # 5)%Q = mean_not_equal (Arr2 [[1]; [1]; [1]; [1]; [1]]) five_zeros
  /\ (0 < 5 # 5)%Q /\ (5 # 5 <= 1)%Q.
Proof.
  apply (noisify_rate_is_a_fraction lcg_generator 0 2 five_zeros
           (Some "symmetric"%string) 1 (Some 0)).
  vm_compute. reflexivity.
Defined.

(** ** Which classes a label can become *)

Lemma wrap_index_nonneg (c : nat) (l : Z) : 0 <= l -> wrap_index c l = Z.to_nat l.
Proof.
  intros H. unfold wrap_index. destruct (Z.ltb_spec l 0); [lia | reflexivity].
Qed.

(** Both builders return matrices whose rows are non-negative and sum to
    exactly 1 over the rationals. *)
Lemma transition_matrix_exactly_stochastic (t : topology) (C : Z) (n : Q) :
  2 <= C -> (0 < n)%Q -> (n <= 1)%Q ->
  forall m, outcome (transition_matrix t n C) = Ok m -> row_stochastic 0 m.
Proof.
  intros HC Hn0 Hn1 m Hm.
  pose proof (inject_Z_pos (C - 1) ltac:(lia)) as Hpos.
  destruct (transition_matrix_valid t C n HC Hn0 Hn1)
    as (m' & E & Hsq & _ & _ & Hent).
  rewrite E in Hm. cbn [outcome snd] in Hm. injection Hm as <-.
  apply (row_stochastic_of_entries (Z.to_nat C) m'
           (transition_probability t (Z.to_nat C) n)); auto.
  - apply Qle_refl.
  - intros a Ha. destruct t; unfold transition_probability.
    + apply pairflip_row_sum; lia.
    + rewrite Z2Nat.id by lia.
      rewrite <- (symmetric_row_sum n C a HC Ha).
      apply sumf_ext. intros j _. case_entries. now rewrite Qmult_1_r.
  - intros a b _ _. destruct t; unfold transition_probability.
    + case_entries; lra.
    + rewrite Z2Nat.id by lia. case_entries; [lra|].
      apply Qle_shift_div_l; lra.
Qed.

(** So [lcg_generator] accepts them and draws from their support. *)
Lemma lcg_generator_on_transition_matrix (t : topology) (C : Z) (n : Q) :
  2 <= C -> (0 < n)%Q -> (n <= 1)%Q ->
  forall m, outcome (transition_matrix t n C) = Ok m ->
    accepts lcg_generator m /\ draws_from_support lcg_generator m.
Proof.
  intros HC Hn0 Hn1 m Hm. apply lcg_generator_on_stochastic.
  exact (transition_matrix_exactly_stochastic t C n HC Hn0 Hn1 m Hm).
Qed.

Lemma support_draw (G : Generator) (t : topology) (n : Q) (C : Z) :
  (forall m, outcome (transition_matrix t n C) = Ok m -> draws_from_support G m) ->
  (forall m, outcome (transition_matrix t n C) = Ok m -> accepts G m) ->
  forall m st p, outcome (transition_matrix t n C) = Ok m -> In p m ->
    exists j st', gen_choice G st p = Some (j, st')
                  /\ (0 < nth (Nat.min j (length p - 1)) p 0)%Q.
Proof.
  intros Hsup Hacc m st p Hm Hp. specialize (Hacc m Hm st p Hp).
  destruct (gen_choice G st p) as [[j st']|] eqn:Ej; [|congruence].
  exists j, st'. split; [reflexivity|].
  exact (Hsup m Hm st p j st' Hp Ej).
Qed.

(** With a generator that draws from the support of the rows of the built
    matrix, on a valid configuration, every sampled row holds a class of
    positive transition probability from the first label of the input
    row. *)
Lemma noisify_rows_support (G : Generator) (os : gen_state G) (t : topology)
      (C : Z) (n : Q) (rows : list (list Z)) (rs : option Z) :
  2 <= C -> (0 < n)%Q -> (n <= 1)%Q ->
  rows <> [] -> Forall (fun r => r <> []) rows ->
  Forall (fun l => 0 <= l < C) (concat rows) ->
  is_ok (RandomState G os rs) = true ->
  (forall m, outcome (transition_matrix t n C) = Ok m -> accepts G m) ->
  (forall m, outcome (transition_matrix t n C) = Ok m ->
             draws_from_support G m) ->
  exists rows',
    Forall2 (fun r r' =>
               exists j : nat,
                 (j < Z.to_nat C)%nat
                 /\ r' = repeat (Z.of_nat j) (length r)
                 /\ (0 < transition_probability t (Z.to_nat C) n
                           (Z.to_nat (hd 0%Z r)) j)%Q) rows rows'
    /\ noisify G os C (Arr2 rows) (Some (topology_name t)) n rs
       = if Qltb 0 (mean_not_equal (Arr2 rows') (Arr2 rows))
         then (EvAlloc :: EvSampler :: repeat EvDraw (length rows)
                 ++ [EvPrint (mean_not_equal (Arr2 rows') (Arr2 rows))],
               Ok (Arr2 rows', Some (mean_not_equal (Arr2 rows') (Arr2 rows))))
         else (EvAlloc :: EvSampler :: repeat EvDraw (length rows),
               Raise AssertionError).
Proof.
  intros HC Hn0 Hn1 Hrows Hne Hlab Hseed Hacc Hsup.
  destruct (noisify_rows G os t C n rows rs (fun p j => (0 < nth j p 0)%Q))
    as (m & rows' & E & Hsq & Hent & Hres & Hn); auto.
  { now apply support_draw. }
  exists rows'. split; [|exact Hn].
  destruct (square_of_shape _ _ Hsq) as [Hs0 _].
  apply Forall_concat_rows in Hlab.
  clear Hn Hrows. revert Hne Hlab.
  induction Hres as [|r r' rows rows' Hr Hrest IH]; intros Hne Hlab.
  - constructor.
  - inversion Hlab as [|? ? Hlr Hlrs]; inversion Hne as [|? ? Hnr Hns]; subst.
    constructor; [|now apply IH].
    destruct Hr as (j & Hj & Hgt & ->).
    destruct r as [|l r]; [congruence|]. inversion Hlr as [|? ? Hl _]; subst.
    cbn [hd] in *. rewrite wrap_index_nonneg in Hj, Hgt by lia.
    rewrite (square_of_row (Z.to_nat C) m) in Hj by (try exact Hsq; lia).
    exists j. repeat split; auto.
    rewrite <- (Hent (Z.to_nat l) j) by lia. exact Hgt.
Qed.

(** X5. Pairflip on a valid configuration, with a generator that, on the
    rows of the matrix that was built, draws from the support: whenever the
    call returns, every output row holds either the first label of its
    input row or that label's cyclic successor. *)
Theorem pairflip_self_or_successor (G : Generator) (os : gen_state G)
        (C : Z) (n : Q) (rows : list (list Z)) (rs : option Z)
        (y' : labels) (r : option Q) :
  2 <= C -> (0 < n)%Q -> (n <= 1)%Q ->
  rows <> [] -> Forall (fun r => r <> []) rows ->
  Forall (fun l => 0 <= l < C) (concat rows) ->
  is_ok (RandomState G os rs) = true ->
  (forall m, outcome (transition_matrix Pairflip n C) = Ok m -> accepts G m) ->
  (forall m, outcome (transition_matrix Pairflip n C) = Ok m ->
             draws_from_support G m) ->
  outcome (noisify G os C (Arr2 rows) (Some "pairflip"%string) n rs) = Ok (y', r) ->
  exists rows',
    y' = Arr2 rows'
    /\ Forall2 (fun row row' =>
                  exists j, row' = repeat j (length row)
                            /\ (j = hd 0 row \/ j = (hd 0 row + 1) mod C))
               rows rows'.
Proof.
  intros HC Hn0 Hn1 Hrows Hne Hlab Hseed Hacc Hsup Hout.
  destruct (noisify_rows_support G os Pairflip C n rows rs)
    as (rows' & Hres & Hn); auto.
  change (Some "pairflip"%string) with (Some (topology_name Pairflip)) in Hout.
  rewrite Hn in Hout.
  destruct (Qltb 0 (mean_not_equal (Arr2 rows') (Arr2 rows))); [|discriminate].
  injection Hout as <- _. exists rows'. split; [reflexivity|].
  apply Forall_concat_rows in Hlab.
  clear Hn Hrows. revert Hne Hlab.
  induction Hres as [|row row' rows rows' Hr Hrest IH]; intros Hne Hlab.
  - constructor.
  - inversion Hlab as [|? ? Hlr Hlrs]; inversion Hne as [|? ? Hnr Hns]; subst.
    constructor; [|now apply IH].
    destruct Hr as (j & Hj & -> & Hgt).
    destruct row as [|l row]; [congruence|]. inversion Hlr as [|? ? Hl _]; subst.
    cbn [hd] in *. exists (Z.of_nat j). split; [reflexivity|].
    unfold transition_probability in Hgt.
    destruct (Nat.eqb_spec j (Z.to_nat l)) as [Ej|_]; [left; lia|].
    destruct (Nat.eqb_spec j (S (Z.to_nat l) mod Z.to_nat C)) as [Ej|_].
    + right. rewrite Ej, Nat2Z.inj_mod. f_equal; lia.
    + exfalso. revert Hgt. apply Qlt_irrefl.
Qed.

Lemma three_labels_below_3 : Forall (fun l => 0 <= l < 3) (concat three_labels).
Proof.
  simpl. repeat (apply Forall_cons; [lia|]). apply Forall_nil.
Qed.

(** Three classes, pairflip at noise level 0.5, seed 0, on
    [lcg_generator]: the labels 0, 1, 1 become 0, 2, 1. *)
Lemma pairflip_self_or_successor_witness :
  exists rows',
    sampled_labels = Arr2 rows'
    /\ Forall2 (fun row row' =>
                  exists j, row' = repeat j (length row)
                            /\ (j = hd 0 row \/ j = (hd 0 row + 1) mod 3))
               three_labels rows'.
Proof.
  apply (pairflip_self_or_successor lcg_generator 0 3 (1 # 2)
           three_labels (Some 0) sampled_labels (Some (1 # 3)%Q)).
  - lia.
  - reflexivity.
  - unfold Qle; simpl; lia.
  - discriminate.
  - exact three_rows_nonempty.
  - exact three_labels_below_3.
  - reflexivity.
  - intros m Hm.
    apply (lcg_generator_on_transition_matrix Pairflip 3 (1 # 2));
      [lia | reflexivity | unfold Qle; simpl; lia | exact Hm].
  - intros m Hm.
    apply (lcg_generator_on_transition_matrix Pairflip 3 (1 # 2));
      [lia | reflexivity | unfold Qle; simpl; lia | exact Hm].
  - vm_compute. reflexivity.
Defined.

(** ** Noise level 1 *)








(** ** Relations between the two matrices *)

(** X7. With two classes the two topologies build the same matrix: for
    every positive noise level the entries agree. *)
Theorem two_classes_same_matrix (n : Q) :
  (0 < n)%Q ->
  exists mp ms,
    transition_matrix Pairflip n 2 = ([EvAlloc], Ok mp)
    /\ transition_matrix Symmetric n 2 = ([EvAlloc], Ok ms)
    /\ square_of 2 mp /\ square_of 2 ms
    /\ forall i j, (i < 2)%nat -> (j < 2)%nat -> (entry mp i j == entry ms i j)%Q.
Proof.
  intros Hn.
  destruct (pairflip_matrix_positive 2 n ltac:(lia) Hn) as (mp & Ep & Hp & Hep).
  destruct (symmetric_matrix_positive 2 n ltac:(lia) Hn) as (ms & Es & Hs & Hes).
  exists mp, ms. repeat split; try apply Hp; try apply Hs; auto.
  intros i j Hi Hj. rewrite Hep, Hes by (simpl; lia).
  change (inject_Z (2 - 1)) with 1%Q.
  destruct i as [|[|i]], j as [|[|j]]; try lia; simpl; field.
Qed.

Lemma two_classes_same_matrix_witness :
  exists mp ms,
    transition_matrix Pairflip (3 # 10) 2 = ([EvAlloc], Ok mp)
    /\ transition_matrix Symmetric (3 # 10) 2 = ([EvAlloc], Ok ms)
    /\ square_of 2 mp /\ square_of 2 ms
    /\ forall i j, (i < 2)%nat -> (j < 2)%nat -> (entry mp i j == entry ms i j)%Q.
Proof.
  apply (two_classes_same_matrix (3 # 10)). reflexivity.
Defined.

Lemma sumf_point_inside (i : nat) (v : Q) (c : nat) :
  (i < c)%nat -> (sumf (point i v) 0 c == v)%Q.
Proof.
  intros H. rewrite sumf_point. case_entries.
Qed.

Lemma pairflip_col_sum (n : Q) (c b : nat) :
  (2 <= c)%nat -> (b < c)%nat ->
  (sumf (fun a => transition_probability Pairflip c n a b) 0 c == 1)%Q.
Proof.
  intros Hc Hb.
  set (pb := if Nat.eqb b 0 then (c - 1)%nat else (b - 1)%nat).
  assert (Hpb : (pb < c)%nat /\ pb <> b /\ (S pb mod c)%nat = b).
  { unfold pb. destruct (Nat.eqb_spec b 0) as [->|Hb0].
    - replace (S (c - 1)) with c by lia. rewrite Nat.Div0.mod_same. lia.
    - replace (S (b - 1)) with b by lia. rewrite Nat.mod_small by lia. lia. }
  destruct Hpb as (Hpb1 & Hpb2 & Hpb3).
  rewrite (sumf_ext _ (fun a => point b (1 - n) a + point pb n a)%Q).
  - rewrite sumf_plus, !sumf_point_inside by lia. ring.
  - intros a [_ Ha]. unfold transition_probability, point.
    destruct (Nat.eqb_spec b a) as [->|Hba].
    + rewrite Nat.eqb_refl. destruct (Nat.eqb_spec a pb); [congruence|]. ring.
    + destruct (Nat.eqb_spec a b) as [|_]; [congruence|].
      destruct (Nat.eqb_spec b (S a mod c)) as [Es|Es];
        destruct (Nat.eqb_spec a pb) as [Ea|Ea]; try ring; exfalso.
      * apply Ea. unfold pb.
        destruct (Nat.eq_dec (S a) c) as [Hs|Hs].
        -- rewrite Hs, Nat.Div0.mod_same in Es. rewrite Es. simpl. lia.
        -- rewrite Nat.mod_small in Es by lia. rewrite Es. simpl. lia.
      * apply Es. rewrite Ea. now rewrite Hpb3.
Qed.

Lemma symmetric_col_sum (n : Q) (C : Z) (b : nat) :
  2 <= C -> (b < Z.to_nat C)%nat ->
  (sumf (fun a => transition_probability Symmetric (Z.to_nat C) n a b)
        0 (Z.to_nat C) == 1)%Q.
Proof.
  intros HC Hb. rewrite <- (symmetric_row_sum n C b HC Hb).
  apply sumf_ext. intros a _. unfold transition_probability.
  rewrite Z2Nat.id by lia. rewrite (Nat.eqb_sym b a).
  destruct (Nat.eqb a b); [reflexivity | now rewrite Qmult_1_r].
Qed.

Lemma transition_matrix_col_sum (t : topology) (C : Z) (n : Q) :
  2 <= C -> (0 < n)%Q -> (n <= 1)%Q ->
  exists m,
    transition_matrix t n C = ([EvAlloc], Ok m)
    /\ forall b, (b < Z.to_nat C)%nat -> (col_sum m b == 1)%Q.
Proof.
  intros HC Hn0 Hn1.
  destruct (transition_matrix_valid t C n HC Hn0 Hn1)
    as (m & E & Hsq & _ & _ & Hent).
  exists m. split; [exact E|]. intros b Hb.
  unfold col_sum. destruct Hsq as [Hl _]. rewrite Hl.
  rewrite (sumf_ext _ (fun a => transition_probability t (Z.to_nat C) n a b)).
  - destruct t; [apply pairflip_col_sum; lia | now apply symmetric_col_sum].
  - intros a Ha. apply Hent; lia.
Qed.

(** X8. For [C >= 2] and a noise level in (0,1] the matrix of either
    topology is doubly stochastic within the tolerance 1e-6 that is used
    for the rows: every column sums to 1 within 1e-6 as well, so a uniform
    distribution over the classes stays uniform up to rounding. *)
Theorem transition_matrix_columns_sum_to_one (t : topology) (C : Z) (n : Q) :
  2 <= C -> (0 < n)%Q -> (n <= 1)%Q ->
  exists m,
    transition_matrix t n C = ([EvAlloc], Ok m)
    /\ forall b, (b < Z.to_nat C)%nat ->
         (Qabs (col_sum m b - 1) <= 1 # 1000000)%Q.
Proof.
  intros HC Hn0 Hn1.
  destruct (transition_matrix_col_sum t C n HC Hn0 Hn1) as (m & E & H).
  exists m. split; [exact E|]. intros b Hb.
  rewrite (H b Hb). discriminate.
Qed.

Lemma transition_matrix_columns_sum_to_one_witness :
  exists m,
    transition_matrix Pairflip (1 # 4) 5 = ([EvAlloc], Ok m)
    /\ forall b, (b < Z.to_nat 5)%nat ->
         (Qabs (col_sum m b - 1) <= 1 # 1000000)%Q.
Proof.
  apply (transition_matrix_columns_sum_to_one Pairflip 5 (1 # 4)).
  - lia.
  - reflexivity.
  - unfold Qle; simpl; lia.
Defined.

(** * [boolean_string] *)

Lemma in_all_ascii (c : ascii) : In c all_ascii.
Proof.
  unfold all_ascii. rewrite <- (ascii_nat_embedding c).
  apply in_map, in_seq. pose proof (nat_ascii_bounded c). lia.
Qed.

(** Two characters have the same lower case exactly when one is the lower
    or the upper case of the other. *)
Lemma ascii_lower_eq (c d : ascii) :
  ascii_lower c = ascii_lower d <-> c = ascii_lower d \/ c = ascii_upper d.
Proof.
  assert (H : forallb (fun c =>
                forallb (fun d =>
                  Bool.eqb (Ascii.eqb (ascii_lower c) (ascii_lower d))
                           (Ascii.eqb c (ascii_lower d) || Ascii.eqb c (ascii_upper d)))
                  all_ascii) all_ascii = true) by (vm_compute; reflexivity).
  rewrite forallb_forall in H. specialize (H c (in_all_ascii c)).
  rewrite forallb_forall in H. specialize (H d (in_all_ascii d)).
  apply Bool.eqb_prop in H.
  rewrite <- (Ascii.eqb_eq (ascii_lower c)), H, orb_true_iff, !Ascii.eqb_eq.
  reflexivity.
Qed.

Lemma str_lower_capitalisations (t s : string) :
  str_lower s = str_lower t <-> In s (capitalisations t).
Proof.
  revert s; induction t as [|d t IH]; intros s; simpl.
  - destruct s; simpl; split; intros H; try discriminate; auto.
    destruct H as [H|[]]; discriminate.
  - rewrite in_app_iff, !in_map_iff. split.
    + destruct s as [|c s]; simpl; [discriminate|].
      intros H. injection H as Hc Hs. apply IH in Hs.
      apply ascii_lower_eq in Hc. destruct Hc as [->| ->]; [left|right];
        exists s; auto.
    + intros [(s' & <- & Hs)|(s' & <- & Hs)]; apply IH in Hs; simpl;
        rewrite Hs; f_equal; apply ascii_lower_eq; auto.
Qed.

(** X9. [boolean_string] accepts exactly the capitalisations of "true"
    (result [True]) and of "false" (result [False]); every other string,
    including one with surrounding blanks, raises [ValueError]. *)
Theorem boolean_string_accepts (s : string) :
  (boolean_string s = Ok true <-> In s (capitalisations "true"))
  /\ (boolean_string s = Ok false <-> In s (capitalisations "false"))
  /\ (boolean_string s = Raise not_a_boolean
      <-> ~ In s (capitalisations "true" ++ capitalisations "false")).
Proof.
  rewrite in_app_iff.
  rewrite <- !str_lower_capitalisations.
  change (str_lower "true") with "true"%string.
  change (str_lower "false") with "false"%string.
  unfold boolean_string.
  destruct (String.eqb_spec (str_lower s) "false") as [E|Ef].
  - rewrite E. simpl. repeat split; intros H; try discriminate; auto.
    exfalso. apply H. auto.
  - destruct (String.eqb_spec (str_lower s) "true") as [E|Et]; simpl.
    + repeat split; intros H; try discriminate; try congruence; auto.
      exfalso. apply H. auto.
    + repeat split; intros H; try discriminate; try congruence.
      intros [H'|H']; congruence.
Qed.

(** * [list_dir] and [list_files] *)

Lemma str_endswith_iff (s suf : string) :
  str_endswith s suf = true <-> exists pre, s = (pre ++ suf)%string.
Proof.
  induction s as [|c s IH]; cbn [str_endswith].
  - destruct (String.eqb_spec "" suf) as [<-|Hne].
    + split; auto. intros _. now exists ""%string.
    + split; [intros H; discriminate H|]. intros [pre H].
      destruct pre; simpl in H; [congruence | discriminate].
  - destruct (String.eqb_spec (String c s) suf) as [<-|Hne].
    + split; auto. intros _. now exists ""%string.
    + rewrite IH. split.
      * intros [pre ->]. now exists (String c pre).
      * intros [pre H]. destruct pre as [|c' pre]; simpl in H; [congruence|].
        injection H as _ ->. now exists pre.
Qed.

Lemma str_endswith_empty (s : string) : str_endswith s "" = true.
Proof.
  induction s as [|c s IH]; simpl; auto.
Qed.

Lemma append_assoc (a b c : string) : ((a ++ b) ++ c = a ++ (b ++ c))%string.
Proof.
  induction a as [|x a IH]; simpl; [reflexivity | now rewrite IH].
Qed.

(** [os.path.join(a, b)] always ends with [b]. *)
Lemma path_join_ends_with (a b : string) :
  exists pre, path_join a b = (pre ++ b)%string.
Proof.
  unfold path_join. destruct (str_startswith b "/").
  - now exists ""%string.
  - destruct (String.eqb a "" || str_endswith a "/").
    + now exists a.
    + exists (a ++ "/")%string. now rewrite append_assoc.
Qed.

Lemma endswith_path_join (a b suf : string) :
  str_endswith b suf = true -> str_endswith (path_join a b) suf = true.
Proof.
  rewrite !str_endswith_iff. intros [pre ->].
  destruct (path_join_ends_with a (pre ++ suf)) as [pre' ->].
  exists (pre' ++ pre)%string. now rewrite append_assoc.
Qed.

Lemma endswith_arg_path_join (a b : string) (suffix : suffix_arg) :
  endswith_arg b suffix = true -> endswith_arg (path_join a b) suffix = true.
Proof.
  destruct suffix as [s|ss]; simpl.
  - apply endswith_path_join.
  - rewrite !existsb_exists. intros (s & Hs & H). exists s. split; auto.
    now apply endswith_path_join.
Qed.

(** X10. [list_files] returns exactly the entries of the listing of the
    expanded root that are regular files there and end with the suffix (one
    of the suffixes of a tuple), as they are listed or, with [prefix=True],
    joined to the root; in both cases every returned path ends with the
    suffix. *)
Theorem list_files_exact (E : Environment) (w : file_store) (root : string)
        (suffix : suffix_arg) (prefix : bool) (paths : list string) :
  list_files E w root suffix prefix = Done paths ->
  exists names,
    listdir E (expanduser E root) = Done names
    /\ (forall path,
          In path paths <->
          exists name,
            In name names
            /\ isfile w (path_join (expanduser E root) name) = true
            /\ endswith_arg name suffix = true
            /\ path = (if prefix then path_join (expanduser E root) name else name))
    /\ Forall (fun path => endswith_arg path suffix = true) paths.
Proof.
  unfold list_files. intros H.
  destruct (listdir E (expanduser E root)) as [names|e]; [|discriminate].
  exists names. split; [reflexivity|].
  assert (Hf : forall name,
             In name (filter (fun p => isfile w (path_join (expanduser E root) p)
                                       && endswith_arg p suffix) names)
             <-> In name names
                 /\ isfile w (path_join (expanduser E root) name) = true
                 /\ endswith_arg name suffix = true).
  { intros name. rewrite filter_In, andb_true_iff. tauto. }
  destruct prefix; injection H as <-; split.
  - intros path. rewrite in_map_iff. split.
    + intros (name & <- & Hn). apply Hf in Hn. exists name. tauto.
    + intros (name & Hn & Hi & Hs & ->). exists name. split; [reflexivity|].
      apply Hf. tauto.
  - apply Forall_forall. intros path Hp. apply in_map_iff in Hp.
    destruct Hp as (name & <- & Hn). apply Hf in Hn.
    apply endswith_arg_path_join. tauto.
  - intros path. rewrite Hf. split.
    + intros (Hn & Hi & Hs). exists path. tauto.
    + intros (name & Hn & Hi & Hs & ->). tauto.
  - apply Forall_forall. intros path Hp. apply Hf in Hp. tauto.
Qed.

(** X11. A tuple of suffixes lists the union of what its members list: a
    path is returned for the tuple exactly when it is returned for one of
    its suffixes.  The empty tuple returns nothing and the empty suffix
    returns every regular file. *)
Theorem list_files_tuple (E : Environment) (w : file_store) (root : string)
        (ss : list string) (prefix : bool) (names : list string) :
  listdir E (expanduser E root) = Done names ->
  (exists paths,
      list_files E w root (AnySuffix ss) prefix = Done paths
      /\ forall p,
          In p paths <->
          exists s ps, In s ss
                       /\ list_files E w root (OneSuffix s) prefix = Done ps
                       /\ In p ps)
  /\ list_files E w root (AnySuffix []) prefix = Done []
  /\ list_files E w root (OneSuffix "") false
     = Done (filter (fun p => isfile w (path_join (expanduser E root) p)) names).
Proof.
  intros Hl. unfold list_files. rewrite Hl. split; [|split].
  - assert (Hf : forall name,
               In name (filter (fun p => isfile w (path_join (expanduser E root) p)
                                         && endswith_arg p (AnySuffix ss)) names)
               <-> exists s, In s ss
                             /\ In name (filter (fun p => isfile w (path_join (expanduser E root) p)
                                                          && endswith_arg p (OneSuffix s)) names)).
    { intros name. rewrite filter_In, andb_true_iff. simpl.
      rewrite existsb_exists. split.
      - intros (Hn & Hi & s & Hs & He). exists s. split; auto.
        apply filter_In. rewrite Hi, He. auto.
      - intros (s & Hs & Hn). apply filter_In in Hn. destruct Hn as [Hn Ht].
        apply andb_true_iff in Ht. destruct Ht as [Hi He].
        repeat split; auto. now exists s. }
    destruct prefix; eexists; (split; [reflexivity|]); intros p.
    + rewrite in_map_iff. split.
      * intros (name & <- & Hn). apply Hf in Hn. destruct Hn as (s & Hs & Hn).
        exists s. eexists. repeat split; eauto. apply in_map_iff. eauto.
      * intros (s & ps & Hs & Hps & Hp). injection Hps as <-.
        apply in_map_iff in Hp. destruct Hp as (name & <- & Hn).
        exists name. split; auto. apply Hf. eauto.
    + rewrite Hf. split.
      * intros (s & Hs & Hn). exists s. eexists. repeat split; eauto.
      * intros (s & ps & Hs & Hps & Hp). injection Hps as <-. eauto.
  - simpl. replace (filter _ names) with (@nil string).
    + now destruct prefix.
    + symmetry. clear Hl. induction names as [|x names IH]; simpl; auto.
      rewrite andb_false_r. exact IH.
  - f_equal. apply filter_ext. intros p. simpl.
    now rewrite str_endswith_empty, andb_true_r.
Qed.

(** X12. Every name that [list_dir] returns is an entry of the listing of
    the expanded root whose join with the root is a directory; with
    [prefix=True] the returned path is that join, hence itself a
    directory.  The entries come in listing order, each at most as often as
    it is listed. *)
Theorem list_dir_sound (E : Environment) (root : string) (prefix : bool)
        (paths : list string) :
  list_dir E root prefix = Done paths ->
  exists names dirs,
    listdir E (expanduser E root) = Done names
    /\ dirs = filter (fun p => isdir E (path_join (expanduser E root) p)) names
    /\ paths = (if prefix then map (path_join (expanduser E root)) dirs else dirs)
    /\ (length paths <= length names)%nat
    /\ (forall d, In d dirs <->
                  In d names /\ isdir E (path_join (expanduser E root) d) = true)
    /\ Forall (fun p => isdir E (if prefix then p
                                  else path_join (expanduser E root) p) = true)
              paths.
Proof.
  unfold list_dir. intros H.
  destruct (listdir E (expanduser E root)) as [names|e]; [|discriminate].
  exists names, (filter (fun p => isdir E (path_join (expanduser E root) p)) names).
  split; [reflexivity|]. split; [reflexivity|].
  assert (Hlen : (length (filter (fun p => isdir E (path_join (expanduser E root) p)) names)
                  <= length names)%nat) by apply filter_length_le.
  assert (Hin : forall d,
             In d (filter (fun p => isdir E (path_join (expanduser E root) p)) names)
             <-> In d names /\ isdir E (path_join (expanduser E root) d) = true)
    by (intros d;
        apply (filter_In (fun p => isdir E (path_join (expanduser E root) p)))).
  destruct prefix; injection H as <-.
  - split; [reflexivity|]. split; [now rewrite length_map|]. split; [exact Hin|].
    apply Forall_forall. intros p Hp.
    apply in_map_iff in Hp. destruct Hp as (d & <- & Hd).
    now apply Hin in Hd.
  - split; [reflexivity|]. split; [exact Hlen|]. split; [exact Hin|].
    apply Forall_forall. intros p Hp. now apply Hin in Hp.
Qed.

Lemma list_files_exact_witness :
  exists names,
    listdir example_env (expanduser example_env "/data"%string) = Done names
    /\ (forall path,
          In path ["/data/a.png"; "/data/b.jpg"]%string <->
          exists name,
            In name names
            /\ isfile example_store
                      (path_join (expanduser example_env "/data"%string) name) = true
            /\ endswith_arg name (AnySuffix [".jpg"; ".png"]%string) = true
            /\ path = (if true
                       then path_join (expanduser example_env "/data"%string) name
                       else name))
    /\ Forall (fun path => endswith_arg path (AnySuffix [".jpg"; ".png"]%string) = true)
              ["/data/a.png"; "/data/b.jpg"]%string.
Proof.
  apply (list_files_exact example_env example_store "/data"%string
           (AnySuffix [".jpg"; ".png"]%string) true
           ["/data/a.png"; "/data/b.jpg"]%string).
  vm_compute. reflexivity.
Defined.

Lemma list_files_tuple_witness :
  (exists paths,
      list_files example_env example_store "/data"%string
                 (AnySuffix [".jpg"; ".png"]%string) false = Done paths
      /\ forall p,
          In p paths <->
          exists s ps, In s [".jpg"; ".png"]%string
                       /\ list_files example_env example_store "/data"%string
                                     (OneSuffix s) false = Done ps
                       /\ In p ps)
  /\ list_files example_env example_store "/data"%string (AnySuffix []) false = Done []
  /\ list_files example_env example_store "/data"%string (OneSuffix ""%string) false
     = Done (filter (fun p => isfile example_store
                                     (path_join (expanduser example_env "/data"%string) p))
                    ["a.png"; "b.jpg"; "sub"; "c.txt"]%string).
Proof.
  apply (list_files_tuple example_env example_store "/data"%string
           [".jpg"; ".png"]%string false ["a.png"; "b.jpg"; "sub"; "c.txt"]%string).
  reflexivity.
Defined.

Lemma list_dir_sound_witness :
  exists names dirs,
    listdir example_env (expanduser example_env "/data"%string) = Done names
    /\ dirs = filter (fun p => isdir example_env
                                     (path_join (expanduser example_env "/data"%string) p))
                     names
    /\ ["/data/sub"%string]
       = (if true then map (path_join (expanduser example_env "/data"%string)) dirs
          else dirs)
    /\ (length ["/data/sub"%string] <= length names)%nat
    /\ (forall d, In d dirs <->
                  In d names
                  /\ isdir example_env
                           (path_join (expanduser example_env "/data"%string) d) = true)
    /\ Forall (fun p => isdir example_env
                               (if true then p
                                else path_join (expanduser example_env "/data"%string) p)
                       = true)
              ["/data/sub"%string].
Proof.
  apply (list_dir_sound example_env "/data"%string true ["/data/sub"%string]).
  vm_compute. reflexivity.
Defined.

(** * [check_integrity] *)

Lemma str_take_drop (k : N) (s : string) :
  (str_take k s ++ str_drop k s)%string = s.
Proof.
  revert k; induction s as [|c s IH]; intros k; simpl; [reflexivity|].
  destruct (N.eqb_spec k 0); simpl; [reflexivity | now rewrite IH].
Qed.

Lemma str_take_empty (k : N) (s : string) :
  (0 < k)%N -> str_take k s = ""%string -> s = ""%string.
Proof.
  intros Hk. destruct s as [|c s]; simpl; [reflexivity|].
  destruct (N.eqb_spec k 0); [lia | discriminate].
Qed.

Lemma str_drop_shorter (k : N) (s : string) :
  (0 < k)%N -> s <> ""%string ->
  (String.length (str_drop k s) < String.length s)%nat.
Proof.
  intros Hk Hs.
  assert (H : forall k s, (String.length (str_drop k s) <= String.length s)%nat).
  { clear. intros k s; revert k. induction s as [|c s IH]; intros k; simpl; [lia|].
    destruct (N.eqb_spec k 0); simpl; [lia|]. specialize (IH (N.pred k)). lia. }
  destruct s as [|c s]; [congruence|]. simpl.
  destruct (N.eqb_spec k 0); [lia|]. specialize (H (N.pred k) s). lia.
Qed.

(** Reading in chunks of [k > 0] bytes feeds the hasher the whole of the
    unread part. *)
Lemma update_by_chunks_whole (H : Hasher) (k : N) :
  streaming H -> (0 < k)%N ->
  forall fuel md5o rest,
    (String.length rest < fuel)%nat ->
    update_by_chunks H fuel k md5o rest = hash_update H md5o rest.
Proof.
  intros [Happ Hnil] Hk. induction fuel as [|fuel IH]; intros md5o rest Hlen.
  - lia.
  - cbn [update_by_chunks].
    destruct (String.eqb_spec (str_take k rest) "") as [E|E].
    + apply str_take_empty in E; [|exact Hk]. subst rest. now rewrite Hnil.
    + rewrite IH.
      * now rewrite Happ, str_take_drop.
      * assert (Hr : rest <> ""%string) by (intros ->; apply E; reflexivity).
        pose proof (str_drop_shorter k rest Hk Hr). lia.
Qed.

(** X13. [check_integrity] is [False] for a path that is not a regular
    file, and otherwise compares [md5] with the digest of the whole content:
    reading in chunks of 1 MiB does not change the digest, whatever the
    size of the file. *)
Theorem check_integrity_whole_file (H : Hasher) (w : file_store)
        (fpath md5 : string) :
  streaming H ->
  check_integrity H w fpath md5
  = match w fpath with
    | None => false
    | Some content =>
        String.eqb (hexdigest H (hash_update H (hash_new H) content)) md5
    end.
Proof.
  intros Hs. unfold check_integrity.
  destruct (w fpath) as [content|]; [|reflexivity].
  rewrite (update_by_chunks_whole H (1024 * 1024)%N Hs) by lia.
  now destruct (String.eqb _ md5).
Qed.

Lemma example_hasher_streaming : streaming example_hasher.
Proof.
  split; simpl.
  - intros st a b. apply append_assoc.
  - intros st. induction st as [|c st IH]; simpl; [reflexivity | now rewrite IH].
Qed.

Lemma check_integrity_whole_file_witness :
  check_integrity example_hasher example_store "/data/b.jpg"%string "defg"%string
  = match example_store "/data/b.jpg"%string with
    | None => false
    | Some content =>
        String.eqb (hexdigest example_hasher
                              (hash_update example_hasher (hash_new example_hasher)
                                           content)) "defg"%string
    end.
Proof.
  apply (check_integrity_whole_file example_hasher example_store "/data/b.jpg"%string "defg"%string).
  exact example_hasher_streaming.
Defined.

(** * [download_url] *)

Lemma check_integrity_isfile (H : Hasher) (w : file_store) (fpath md5 : string) :
  check_integrity H w fpath md5 = true -> isfile w fpath = true.
Proof.
  unfold check_integrity, isfile. destruct (w fpath); [reflexivity | discriminate].
Qed.

(** When [os.makedirs] succeeds or reports that the directory exists,
    [download_url] goes on with the rest. *)
Lemma download_url_after_makedirs (E : Environment) (H : Hasher)
      (url root filename md5 : string) (w w1 : file_store) (r0 : io_result unit) :
  makedirs E (expanduser E root) w = (r0, w1) ->
  (r0 = Done tt \/ exists c, r0 = Fail (OSError c EEXIST)) ->
  download_url E H url root filename md5 w
  = let '(log, r, w2) :=
      fetch_if_needed E H url (path_join (expanduser E root) filename) md5 w1 in
    (IoMakedirs (expanduser E root) :: log, r, w2).
Proof.
  intros Hmk Hr. unfold download_url. rewrite Hmk.
  destruct Hr as [->|[c ->]]; reflexivity.
Qed.

(** X14. When the target is already there with the expected digest,
    [download_url] retrieves nothing and leaves the files as [os.makedirs]
    left them: it only reports the file. *)
Theorem download_url_cached (E : Environment) (H : Hasher)
        (url root filename md5 : string) (w w1 : file_store) (r0 : io_result unit) :
  makedirs E (expanduser E root) w = (r0, w1) ->
  (r0 = Done tt \/ exists c, r0 = Fail (OSError c EEXIST)) ->
  check_integrity H w1 (path_join (expanduser E root) filename) md5 = true ->
  download_url E H url root filename md5 w
  = ([IoMakedirs (expanduser E root);
      IoPrint ("Using downloaded and verified file: "
                 ++ path_join (expanduser E root) filename)],
     Done tt, w1).
Proof.
  intros Hmk Hr Hc.
  rewrite (download_url_after_makedirs E H url root filename md5 w w1 r0 Hmk Hr).
  unfold fetch_if_needed.
  now rewrite (check_integrity_isfile H w1 _ md5 Hc), Hc.
Qed.

Lemma download_url_cached_witness :
  download_url example_env example_hasher "https://host/b.jpg" "/data" "b.jpg"
               "defg" example_store
  = ([IoMakedirs (expanduser example_env "/data");
      IoPrint ("Using downloaded and verified file: "
                 ++ path_join (expanduser example_env "/data") "b.jpg")],
     Done tt, example_store).
Proof.
  apply (download_url_cached example_env example_hasher "https://host/b.jpg"
           "/data" "b.jpg" "defg" example_store example_store
           (Fail (OSError false EEXIST))).
  - reflexivity.
  - right. exists false. reflexivity.
  - vm_compute. reflexivity.
Defined.

(** X15. A [ConnectionError] of the retrieval of a url that does not
    begin with "https" is dropped: the call returns normally, with whatever
    the failed attempt left on disk, and makes no second attempt. *)
Theorem download_url_connection_error_dropped (E : Environment) (H : Hasher)
        (url root filename md5 : string) (w w1 w2 : file_store)
        (r0 : io_result unit) (errno : Z) :
  makedirs E (expanduser E root) w = (r0, w1) ->
  (r0 = Done tt \/ exists c, r0 = Fail (OSError c EEXIST)) ->
  check_integrity H w1 (path_join (expanduser E root) filename) md5 = false ->
  urlretrieve E url (path_join (expanduser E root) filename) w1
  = (Fail (OSError true errno), w2) ->
  String.eqb (substring 0 5 url) "https" = false ->
  download_url E H url root filename md5 w
  = ([IoMakedirs (expanduser E root);
      IoPrint ("Downloading " ++ url ++ " to "
                 ++ path_join (expanduser E root) filename);
      IoRetrieve url (path_join (expanduser E root) filename)],
     Done tt, w2).
Proof.
  intros Hmk Hr Hc Hret Hs.
  rewrite (download_url_after_makedirs E H url root filename md5 w w1 r0 Hmk Hr).
  unfold fetch_if_needed. now rewrite Hc, andb_false_r, Hret, Hs.
Qed.

Lemma download_url_connection_error_dropped_witness :
  download_url example_env example_hasher "ftp://host/new.bin" "/data"
               "new.bin" "00" example_store
  = ([IoMakedirs (expanduser example_env "/data");
      IoPrint ("Downloading " ++ "ftp://host/new.bin" ++ " to "
                 ++ path_join (expanduser example_env "/data") "new.bin");
      IoRetrieve "ftp://host/new.bin"
                 (path_join (expanduser example_env "/data") "new.bin")],
     Done tt, example_store).
Proof.
  apply (download_url_connection_error_dropped example_env example_hasher
           "ftp://host/new.bin" "/data" "new.bin" "00"
           example_store example_store example_store
           (Fail (OSError false EEXIST)) 104).
  - reflexivity.
  - right. exists false. reflexivity.
  - reflexivity.
  - reflexivity.
  - reflexivity.
Defined.

(** X16. After a [ConnectionError] of the retrieval of a url that begins
    with "https", exactly one more retrieval is made, of the url with every
    "https:" replaced by "http:" and into the same file; its result,
    success or failure, is the result of the call. *)
Theorem download_url_connection_error_retried (E : Environment) (H : Hasher)
        (url root filename md5 : string) (w w1 w2 : file_store)
        (r0 : io_result unit) (errno : Z) :
  makedirs E (expanduser E root) w = (r0, w1) ->
  (r0 = Done tt \/ exists c, r0 = Fail (OSError c EEXIST)) ->
  check_integrity H w1 (path_join (expanduser E root) filename) md5 = false ->
  urlretrieve E url (path_join (expanduser E root) filename) w1
  = (Fail (OSError true errno), w2) ->
  String.eqb (substring 0 5 url) "https" = true ->
  exists log,
    download_url E H url root filename md5 w
    = (log,
       fst (urlretrieve E (str_replace "https:" "http:" url)
                        (path_join (expanduser E root) filename) w2),
       snd (urlretrieve E (str_replace "https:" "http:" url)
                        (path_join (expanduser E root) filename) w2))
    /\ retrievals log
       = [(url, path_join (expanduser E root) filename);
          (str_replace "https:" "http:" url,
           path_join (expanduser E root) filename)].
Proof.
  intros Hmk Hr Hc Hret Hs.
  rewrite (download_url_after_makedirs E H url root filename md5 w w1 r0 Hmk Hr).
  unfold fetch_if_needed. rewrite Hc, andb_false_r, Hret, Hs.
  destruct (urlretrieve E (str_replace "https:" "http:" url)
                        (path_join (expanduser E root) filename) w2) as [r w3].
  eexists. split; reflexivity.
Qed.

Lemma download_url_connection_error_retried_witness :
  exists log,
    download_url example_env example_hasher "https://host/new.bin" "/data"
                 "new.bin" "00" example_store
    = (log,
       fst (urlretrieve example_env
                        (str_replace "https:" "http:" "https://host/new.bin")
                        (path_join (expanduser example_env "/data") "new.bin")
                        example_store),
       snd (urlretrieve example_env
                        (str_replace "https:" "http:" "https://host/new.bin")
                        (path_join (expanduser example_env "/data") "new.bin")
                        example_store))
    /\ retrievals log
       = [("https://host/new.bin"%string,
           path_join (expanduser example_env "/data") "new.bin");
          (str_replace "https:" "http:" "https://host/new.bin",
           path_join (expanduser example_env "/data") "new.bin")].
Proof.
  apply (download_url_connection_error_retried example_env example_hasher
           "https://host/new.bin" "/data" "new.bin" "00"
           example_store example_store example_store
           (Fail (OSError false EEXIST)) 104).
  - reflexivity.
  - right. exists false. reflexivity.
  - reflexivity.
  - reflexivity.
  - reflexivity.
Defined.

(** X19. Whatever the environment does, [download_url] starts with
    [os.makedirs] and retrieves at most twice, always into the join of the
    expanded root and the file name: nothing, the url, or the url and then
    its "http:" form, the latter only for a url that begins with "https". *)
Theorem download_url_retrievals (E : Environment) (H : Hasher)
        (url root filename md5 : string) (w : file_store) :
  let fpath := path_join (expanduser E root) filename in
  let log := fst (fst (download_url E H url root filename md5 w)) in
  hd_error log = Some (IoMakedirs (expanduser E root))
  /\ (retrievals log = []
      \/ retrievals log = [(url, fpath)]
      \/ (retrievals log = [(url, fpath); (str_replace "https:" "http:" url, fpath)]
          /\ String.eqb (substring 0 5 url) "https" = true)).
Proof.
  intros fpath log. subst log.
  assert (Hf : forall w1,
             let log := fst (fst (fetch_if_needed E H url fpath md5 w1)) in
             retrievals log = []
             \/ retrievals log = [(url, fpath)]
             \/ (retrievals log
                 = [(url, fpath); (str_replace "https:" "http:" url, fpath)]
                 /\ String.eqb (substring 0 5 url) "https" = true)).
  { intros w1. unfold fetch_if_needed.
    destruct (isfile w1 fpath && check_integrity H w1 fpath md5); [now left|].
    destruct (urlretrieve E url fpath w1) as [[[]|[[|] errno|name]] w2];
      try (right; left; reflexivity).
    destruct (String.eqb (substring 0 5 url) "https") eqn:Es.
    - destruct (urlretrieve E (str_replace "https:" "http:" url) fpath w2).
      right. right. split; reflexivity.
    - right. left. reflexivity. }
  unfold download_url. fold fpath.
  destruct (makedirs E (expanduser E root) w) as [[[]|[c errno|name]] w1].
  - specialize (Hf w1).
    destruct (fetch_if_needed E H url fpath md5 w1) as [[log r] w2].
    split; [reflexivity | exact Hf].
  - destruct (errno =? EEXIST).
    + specialize (Hf w1).
      destruct (fetch_if_needed E H url fpath md5 w1) as [[log r] w2].
      split; [reflexivity | exact Hf].
    + split; [reflexivity | now left].
  - split; [reflexivity | now left].
Qed.

(** * Bounds that the sampler does not check up front *)

Lemma for_eachM_app {A S : Type} (body : S -> A -> M S) (xs ys : list A) :
  forall s,
    for_eachM (xs ++ ys) s body
    = bind (for_eachM xs s body) (fun s' => for_eachM ys s' body).
Proof.
  induction xs as [|x xs IH]; intros s; cbn [app for_eachM].
  - now rewrite bind_ret_l.
  - rewrite bind_assoc. destruct (body s x) as [l [s'|e]]; [|reflexivity].
    cbn [bind]. now rewrite IH.
Qed.

Lemma norm_index_out_of_bounds (c : nat) (l : Z) :
  ~ index_in_bounds c l -> norm_index c l = Raise IndexError.
Proof.
  unfold index_in_bounds, norm_index. intros H.
  bdestruct; simpl; try reflexivity; exfalso; apply H; lia.
Qed.

Lemma matrix_rows_out_of_bounds (m : matrix) (r : list Z) :
  Exists (fun l => ~ index_in_bounds (shape0 m) l) r ->
  matrix_rows m (LRow r) = Raise IndexError.
Proof.
  intros H. simpl.
  assert (E : forall acc,
             for_each r acc
               (fun acc i => i' <~ norm_index (shape0 m) i ;;
                             Ok (acc ++ [nth i' m []]))
             = Raise IndexError).
  { induction H as [l r Hl|l r Hr IH]; intros acc; simpl.
    - now rewrite (norm_index_out_of_bounds _ _ Hl).
    - pose proof (norm_index_no_assertion (shape0 m) l) as Hn.
      destruct (norm_index (shape0 m) l) as [i'|e] eqn:En; simpl; [apply IH|].
      unfold norm_index in En.
      destruct (_ && _); [discriminate|]. destruct (_ && _); [discriminate|].
      congruence. }
  now rewrite E.
Qed.

(** The loop over a run of rows in bounds that is followed by other
    rows. *)
Lemma sample_loop_prefix (G : Generator) (m : matrix) (mid : list (list Z)) :
  accepts G m -> Forall (fun r => r <> []) m ->
  forall (before done tail : list (list Z)) (st : gen_state G),
    length done = length before ->
    Forall (fun r => r <> [] /\ Forall (index_in_bounds (shape0 m)) r) mid ->
    exists done' st',
      for_eachM (seq (length before) (length mid))
                (Arr2 (done ++ mid ++ tail), st)
                (noisify_step G (Arr2 (before ++ mid ++ tail)) m)
      = (repeat EvDraw (length mid), Ok (Arr2 (done ++ done' ++ tail), st'))
      /\ length done' = length mid.
Proof.
  intros Hacc Hm.
  assert (Hgen : forall st p, In p m ->
             exists j st', gen_choice G st p = Some (j, st') /\ True).
  { intros st p Hp. specialize (Hacc st p Hp).
    destruct (gen_choice G st p) as [[j st']|]; [|congruence]. eauto. }
  induction mid as [|r mid IH]; intros before done tail st Hlen Hmid.
  - exists [], st. split; reflexivity.
  - inversion Hmid as [|? ? [Hr Hb] Hmid']; subst.
    destruct (noisify_step_row G m (fun _ _ => True) Hgen Hm
                before (mid ++ tail) done r st Hlen Hr Hb)
      as (r' & st1 & E1 & _).
    cbn [length seq for_eachM app]. rewrite E1. cbn [bind].
    destruct (IH (before ++ [r]) (done ++ [r']) tail st1) as (done' & st' & E & Hd).
    { rewrite !length_app. simpl. lia. }
    { exact Hmid'. }
    rewrite <- !app_assoc in E. cbn [app] in E.
    rewrite length_app in E. cbn [length] in E.
    rewrite Nat.add_1_r in E. rewrite E.
    exists (r' :: done'), st'. split; [reflexivity | simpl; lia].
Qed.

(** X17. The sampler checks labels against the number of classes from
    above only.  A label below [-C] passes the validation; the rows before
    it are sampled, one draw each, and the call then fails with
    [IndexError] at the row that holds it, without a draw for that row and
    without a result. *)
Theorem multiclass_noisify_label_below_range (G : Generator) (os : gen_state G)
        (m : matrix) (before after : list (list Z)) (r : list Z)
        (rs : option Z) (c : nat) :
  accepts G m ->
  square_of c m -> rows_sum_to_one m -> entries_nonneg m ->
  Forall (fun row => row <> []) before ->
  Forall (index_in_bounds c) (concat before) ->
  Exists (fun l => l < - Z.of_nat c) r ->
  Forall (fun l => l < Z.of_nat c) (r ++ concat after) ->
  is_ok (RandomState G os rs) = true ->
  multiclass_noisify G os (Arr2 (before ++ r :: after)) m rs
  = (EvSampler :: repeat EvDraw (length before), Raise IndexError).
Proof.
  intros Hacc Hsq Hsum Hpos Hne Hb Hbad Hlt Hseed.
  destruct (square_of_shape _ _ Hsq) as [H0 H1].
  assert (Hflat : flat (Arr2 (before ++ r :: after)) <> []).
  { simpl. rewrite concat_app. simpl. intros E.
    apply app_eq_nil in E. destruct E as [_ E].
    apply app_eq_nil in E. destruct E as [E _]. subst r. inversion Hbad. }
  assert (Hpre : preconditions (Arr2 (before ++ r :: after)) m).
  { repeat split; auto.
    - unfold matrix_is_square. congruence.
    - unfold labels_below_rows. rewrite H0. simpl. rewrite concat_app. simpl.
      apply Forall_app. split; [|exact Hlt].
      revert Hb. apply Forall_impl. unfold index_in_bounds. intros l Hl. lia. }
  rewrite (multiclass_noisify_accepts G os _ m rs Hflat Hpre).
  unfold draw_all, lift.
  destruct (RandomState G os rs) as [flipper|e]; [|discriminate].
  cbn [bind tell labels_shape0].
  rewrite length_app. cbn [length]. rewrite seq_app, for_eachM_app.
  destruct (sample_loop_prefix G m before Hacc (rows_sum_to_one_nonempty m Hsum)
              [] [] (r :: after) flipper eq_refl) as (done' & st' & E & Hd).
  { apply Forall_concat_rows in Hb. rewrite H0.
    clear - Hne Hb. induction Hne; inversion Hb; subst; constructor; auto. }
  cbn [app length] in E. rewrite E. cbn [bind Nat.add seq for_eachM].
  unfold noisify_step. cbn [labels_getitem].
  rewrite <- (app_nil_l (before ++ r :: after)).
  rewrite <- (app_nil_l (before ++ r :: after)) at 1.
  cbn [app]. rewrite nth_middle_row.
  rewrite matrix_rows_out_of_bounds.
  - cbn [lift bind]. now rewrite !app_nil_r.
  - rewrite H0. revert Hbad. apply Exists_impl.
    unfold index_in_bounds. intros l Hl. lia.
Qed.

Lemma multiclass_noisify_label_below_range_witness :
  multiclass_noisify first_positive_generator tt
                     (Arr2 (two_rows ++ low_row :: last_rows)) example_matrix (Some 0)
  = (EvSampler :: repeat EvDraw (length two_rows), Raise IndexError).
Proof.
  apply (multiclass_noisify_label_below_range first_positive_generator tt
           example_matrix two_rows last_rows low_row (Some 0) 2).
  - exact first_positive_generator_accepts_example.
  - exact example_matrix_square.
  - exact example_matrix_sums.
  - exact example_matrix_nonneg.
  - apply Forall_cons; [discriminate|]. apply Forall_cons; [discriminate|].
    apply Forall_nil.
  - unfold index_in_bounds. simpl.
    apply Forall_cons; [lia|]. apply Forall_cons; [lia|]. apply Forall_nil.
  - apply Exists_cons_hd. simpl. lia.
  - simpl. apply Forall_cons; [lia|]. apply Forall_cons; [lia|]. apply Forall_nil.
  - reflexivity.
Defined.

(** X18. A seed outside [0, 2**32) is only noticed after the validation:
    on labels and a matrix that satisfy the four preconditions the call
    fails with the generator's [ValueError], before any draw. *)
Theorem multiclass_noisify_bad_seed (G : Generator) (os : gen_state G)
        (y : labels) (m : matrix) (seed : Z) :
  flat y <> [] -> preconditions y m -> seed < 0 \/ 2 ^ 32 <= seed ->
  multiclass_noisify G os y m (Some seed) = ([EvSampler], Raise bad_seed).
Proof.
  intros Hy Hp Hseed.
  rewrite (multiclass_noisify_accepts G os y m (Some seed) Hy Hp).
  unfold draw_all, RandomState.
  replace ((0 <=? seed) && (seed <? 2 ^ 32)) with false; [reflexivity|].
  symmetry. apply andb_false_iff.
  destruct Hseed; [left; apply Z.leb_gt | right; apply Z.ltb_ge]; lia.
Qed.

Lemma multiclass_noisify_bad_seed_witness :
  multiclass_noisify first_positive_generator tt (Arr2 three_labels)
                     example_matrix (Some (-1))
  = ([EvSampler], Raise bad_seed).
Proof.
  apply (multiclass_noisify_bad_seed first_positive_generator tt
           (Arr2 three_labels) example_matrix (-1)).
  - discriminate.
  - apply (proj1 (checks_iff (Arr2 three_labels) example_matrix 1 eq_refl
                             ltac:(discriminate))).
    reflexivity.
  - left. lia.
Defined.
